(** * The porto container-runtime adapter (package cruntime, porto.go)

    A shallow embedding of the adapter: the version parser, the image
    operations, [Enable], [Preload] and the preload check
    [portoImagesPreloaded]; and of the two version-bump programs under
    hack/update.

    Go strings are byte strings ([string]); a command built by
    [exec.Command] is its argument vector.  Every call that leaves the file
    (the command runner, the init-system manager, the CRI helpers of the
    package, the image catalog, klog) is a node of a program tree; a host
    answers the calls, and running a program against a host yields its
    result, the final host state and the trace of calls with their
    answers. *)

From Stdlib Require Import String Ascii List Bool Arith ZArith Lia Permutation.
Import ListNotations.
Local Open Scope string_scope.
Local Open Scope list_scope.

Set Implicit Arguments.

(** ** Byte strings *)

Module Strings.

(** [strings.Contains(s, substr)]: [substr] occurs somewhere in [s]. *)
Fixpoint Contains (s substr : string) : bool :=
  if String.prefix substr s then true
  else match s with
       | EmptyString => false
       | String _ s' => Contains s' substr
       end.

Definition occurs_in (substr s : string) : Prop :=
  exists a b, s = (a ++ substr ++ b)%string.

End Strings.

(** ** Regular expressions (package regexp), as far as porto.go uses them *)

Module Regexp.

(** The syntax needed for the pattern of [parsePortoVersion]: a
    character class, a literal byte, concatenation and the greedy star.
    The classes of that pattern are decided by ASCII bytes alone, and no
    byte of a longer UTF-8 sequence is an ASCII digit, dot or space, so
    matching byte by byte finds the same text as matching rune by rune. *)
Inductive regex : Type :=
| Class (p : ascii -> bool)
| Lit (c : ascii)
| Cat (r1 r2 : regex)
| Star (r : regex).

(** [\d]: an ASCII decimal digit. *)
Definition digit (c : ascii) : bool :=
  let n := nat_of_ascii c in ((48 <=? n) && (n <=? 57))%nat.

(** [\s] is [\t\n\f\r ]; [\S] is its complement. *)
Definition space (c : ascii) : bool :=
  let n := nat_of_ascii c in
  ((n =? 9) || (n =? 10) || (n =? 12) || (n =? 13) || (n =? 32))%nat.

Definition nonspace (c : ascii) : bool := negb (space c).

(** The greedy star, given the matcher [m] of its body and what follows
    ([k]): one more iteration is tried first, and it must consume input;
    when that fails the star stops.  [fuel] bounds the iterations by the
    length of the input. *)
Fixpoint starLoop (m : string -> (string -> option string) -> option string)
  (k : string -> option string) (fuel : nat) (s : string) {struct fuel}
  : option string :=
  match fuel with
  | O => k s
  | S fuel' =>
      match m s (fun s' => if (String.length s' <? String.length s)%nat
                           then starLoop m k fuel' s' else None) with
      | Some rest => Some rest
      | None => k s
      end
  end.

(** Backtracking matcher in continuation-passing style: [matchK r s k]
    matches a prefix of [s] against [r] and hands the rest of the input
    to [k]; alternatives are tried in the order of the leftmost-first
    rule.  The result is the input left after the whole match. *)
Fixpoint matchK (r : regex) (s : string) (k : string -> option string)
  {struct r} : option string :=
  match r with
  | Class p =>
      match s with
      | String c s' => if p c then k s' else None
      | EmptyString => None
      end
  | Lit c0 =>
      match s with
      | String c s' => if Ascii.eqb c c0 then k s' else None
      | EmptyString => None
      end
  | Cat r1 r2 => matchK r1 s (fun s' => matchK r2 s' k)
  | Star r' => starLoop (matchK r') k (String.length s) s
  end.

(** The text matched at the start of [s], if [r] matches there. *)
Definition matchPrefix (r : regex) (s : string) : option string :=
  match matchK r s Some with
  | Some rest =>
      Some (String.substring 0 (String.length s - String.length rest) s)
  | None => None
  end.

(** [FindString]: the leftmost match. *)
Fixpoint FindString (r : regex) (s : string) : option string :=
  match matchPrefix r s with
  | Some m => Some m
  | None =>
      match s with
      | EmptyString => None
      | String _ s' => FindString r s'
      end
  end.

(** [FindStringSubmatch] for a pattern that is one capture group around
    [r]: the whole match followed by the group's text (the same text),
    or the nil slice when there is no match. *)
Definition FindStringSubmatch (r : regex) (s : string) : list string :=
  match FindString r s with
  | Some m => [m; m]
  | None => []
  end.

End Regexp.

(** ** Errors *)

(** A Go [error] value, by the constructor that built it. *)
Inductive error : Type :=
| errors_New (msg : string)
| errors_Wrap (cause : error) (msg : string)
| errors_Wrapf (cause : error) (format : string) (args : list string)
| fmt_Errorf (format : string) (args : list string)
| fmt_Errorf_w (format : string) (wrapped : error).

(** A value returned together with an error: [(v, nil)] or [(zero, err)]. *)
Definition result (A : Type) : Type := (A + error)%type.

(** ** The version parser *)

(** The pattern of [parsePortoVersion], a digit, a dot and a greedy run
    of non-space bytes, without its capture group. *)
Definition rg : Regexp.regex :=
  Regexp.Cat (Regexp.Class Regexp.digit)
    (Regexp.Cat (Regexp.Lit ".")
       (Regexp.Star (Regexp.Class Regexp.nonspace))).

(** [parsePortoVersion]: the loop over the submatch slice returns in its
    first iteration, so it yields the head of the slice. *)
Definition parsePortoVersion (line : string) : result string :=
  match Regexp.FindStringSubmatch rg line with
  | v :: _ => inl v
  | [] => inr (fmt_Errorf "unknown version: %q" [line])
  end.

(** ** Data *)

(** Modelled from the spec: the result of one executed command (type
    [command.RunResult], declared outside this file): the captured standard
    output and standard error. *)
Record RunResult : Type := { Stdout : string; Stderr : string }.

(** Modelled from the spec: the JSON inventory (type [crictlImages],
    declared outside this file), shaped as
    [{ "images": [ { "id": string, "repoTags": [string, ...] }, ... ] }]. *)
Record crictlImage : Type := { ID : string; RepoTags : list string }.
Record crictlImages : Type := { Images : list crictlImage }.

Module semver.
Record Version : Type := { Major : N; Minor : N; Patch : N }.
End semver.

Module config.
Record KubernetesConfig : Type :=
  { KubernetesVersion : string; ImageRepository : string }.
Record ClusterConfig : Type := { KubernetesConfig_ : KubernetesConfig }.
End config.

(** [Porto] contains porto runtime state.  The fields [Runner] and [Init]
    are the two collaborators every call below goes to. *)
Record Porto : Type :=
  { Socket : string;
    ImageRepository : string;
    KubernetesVersion : semver.Version;
    InsecureRegistry : list string }.

(** What the file uses from the rest of the package and from the standard
    library without defining it: the human-readable output of a command
    result, the add-default-repository normalization of image names, and
    JSON decoding into [crictlImages]. *)
Class Package : Type :=
  { Output : RunResult -> string;
    addRepoTagToImageName : string -> string;
    json_Unmarshal : string -> option crictlImages }.

(** ** Calls that leave the file *)

Inductive severity : Type := Info | Warning | Error.

Inductive fmtarg : Type :=
| AStr (s : string)
| AErr (e : error).

Inductive call : Type :=
| Runner_RunCmd (argv : list string)
| Init_Active (svc : string)
| Init_Restart (svc : string)
| Init_ForceStop (svc : string)
| CheckKernelCompatibility (major minor : Z)
| disableOthers
| populateCRIConfig (socket : string)
| enableIPForwarding
| pullCRIImage (name : string)
| removeCRIImage (name : string)
| images_Kubeadm (mirror version : string)
| klog (sev : severity) (format : string) (args : list fmtarg).

(** The type of the answer to a call; [None] is the nil error. *)
Definition ret (c : call) : Type :=
  match c with
  | Runner_RunCmd _ => result RunResult
  | Init_Active _ => bool
  | images_Kubeadm _ _ => result (list string)
  | klog _ _ _ => unit
  | Init_Restart _ | Init_ForceStop _ | CheckKernelCompatibility _ _
  | disableOthers | populateCRIConfig _ | enableIPForwarding
  | pullCRIImage _ | removeCRIImage _ => option error
  end.

(** A program: it returns, or makes a call and goes on with the answer. *)
Inductive prog (A : Type) : Type :=
| Ret (a : A)
| Vis (c : call) (k : ret c -> prog A).

Arguments Ret {A} a.
Arguments Vis {A} c k.

Fixpoint bind {A B : Type} (p : prog A) (f : A -> prog B) : prog B :=
  match p with
  | Ret a => f a
  | Vis c k => Vis c (fun r => bind (k r) f)
  end.

Definition trigger (c : call) : prog (ret c) := Vis c (fun r => Ret r).

Declare Scope prog_scope.
Delimit Scope prog_scope with prog.
Notation "x <- p ;; q" := (bind p (fun x => q))
  (at level 61, p at next level, right associativity) : prog_scope.
Notation "p ;; q" := (bind p (fun _ => q))
  (at level 61, right associativity) : prog_scope.
Local Open Scope prog_scope.

(** [if err := p; err != nil { return wrap(err) }] followed by [k]. *)
Definition orReturn (wrap : error -> error) (p : prog (option error))
  (k : prog (option error)) : prog (option error) :=
  e <- p ;;
  match e with
  | Some err => Ret (Some (wrap err))
  | None => k
  end.

(** ** Running a program against a host *)

Inductive event : Type := Ev (c : call) (r : ret c).

Record outcome (A W : Type) : Type :=
  { value : A; final : W; trace : list event }.

Section Exec.
Variable W : Type.
(** The host: its answer to a call in a state, and the state after. *)
Variable host : forall c : call, W -> ret c * W.

Fixpoint exec {A : Type} (p : prog A) (w : W) : outcome A W :=
  match p with
  | Ret a => {| value := a; final := w; trace := [] |}
  | Vis c k =>
      let (r, w1) := host c w in
      let o := exec (k r) w1 in
      {| value := value o; final := final o; trace := Ev c r :: trace o |}
  end.
End Exec.

(** The host's answer to a call in a state, and the state it leaves. *)
Definition answer {W : Type} (host : forall c : call, W -> ret c * W)
  (c : call) (w : W) : ret c := fst (host c w).
Definition after {W : Type} (host : forall c : call, W -> ret c * W)
  (c : call) (w : W) : W := snd (host c w).

(** The two commands of the file that query the runtime's images. *)
Definition listing : call :=
  Runner_RunCmd ["sudo"; "portoctl"; "docker-images"].
Definition inventory : call :=
  Runner_RunCmd ["sudo"; "crictl"; "images"; "--output"; "json"].

(** The log line [ImageExists] writes before it lists the images. *)
Definition checking (name sha : string) : call :=
  klog Info "Checking existence of image with name %q and sha %q"
    [AStr name; AStr sha].

(** The two kernel gates of [Enable] and the warning of the second. *)
Definition hardGate : call := CheckKernelCompatibility 5 11.
Definition softGate : call := CheckKernelCompatibility 5 13.
Definition softWarning (err : error) : call :=
  klog Warning "kernel >= 5.13 is recommended for rootless mode %v"
    [AErr err].

(** A pull and a restart of the service in a trace, with their answers. *)
Definition pulled (img : string) (e : option error) : event :=
  Ev (pullCRIImage img) e.
Definition restarted (e : option error) : event :=
  Ev (Init_Restart "porto") e.

(** The calls of a trace. *)
Definition call_of (e : event) : call := let (c, _) := e in c.
Definition calls (tr : list event) : list call := map call_of tr.

Definition is_pull (c : call) : bool :=
  match c with pullCRIImage _ => true | _ => false end.
Definition is_restart (c : call) : bool :=
  match c with Init_Restart _ => true | _ => false end.
Definition is_gate (c : call) : bool :=
  match c with CheckKernelCompatibility _ _ => true | _ => false end.

(** A call answered with a non-nil error. *)
Definition failed (e : event) : bool :=
  match e with
  | Ev (Runner_RunCmd _) (inr _) => true
  | Ev (images_Kubeadm _ _) (inr _) => true
  | Ev (Init_Restart _) (Some _) | Ev (Init_ForceStop _) (Some _)
  | Ev (CheckKernelCompatibility _ _) (Some _)
  | Ev disableOthers (Some _) | Ev (populateCRIConfig _) (Some _)
  | Ev enableIPForwarding (Some _)
  | Ev (pullCRIImage _) (Some _) | Ev (removeCRIImage _) (Some _) => true
  | _ => false
  end.

(** ** The adapter *)

Section Adapter.
Context {pkg : Package}.

(** [Name] is a human readable name for porto. *)
Definition Name (r : Porto) : string := "porto".

(** [Version] retrieves the current version of this runtime. *)
Definition Version (r : Porto) : prog (result string) :=
  res <- trigger (Runner_RunCmd ["portod"; "version"]) ;;
  match res with
  | inr err => Ret (inr (errors_Wrapf err "porto check version" []))
  | inl rr =>
      match parsePortoVersion (Stdout rr) with
      | inr err => Ret (inr err)
      | inl version => Ret (inl version)
      end
  end.

(** [SocketPath] returns the path to the socket file for porto. *)
Definition SocketPath (r : Porto) : string :=
  if negb (Socket r =? "")%string then Socket r else "/run/portoshim.sock".

(** [Active] returns if porto is active on the host. *)
Definition Active (r : Porto) : prog bool := trigger (Init_Active "porto").

(** [generatePortoConfig] sets up nothing: it returns nil. *)
Definition generatePortoConfig (imageRepository : string)
  (kv : semver.Version) (cgroupDriver : string)
  (insecureRegistry : list string) (inUserNamespace : bool)
  : prog (option error) :=
  Ret None.

(** [PullImage] pulls an image into this runtime. *)
Definition PullImage (r : Porto) (name : string) : prog (option error) :=
  trigger (pullCRIImage name).

(** [RemoveImage] removes an image. *)
Definition RemoveImage (r : Porto) (name : string) : prog (option error) :=
  trigger (removeCRIImage name).

(** [Restart] restarts this container runtime on a host. *)
Definition Restart (r : Porto) : prog (option error) :=
  trigger (Init_Restart "porto").

(** [Disable] idempotently disables porto on a host. *)
Definition Disable (r : Porto) : prog (option error) :=
  trigger (Init_ForceStop "porto").

(** [Enable] idempotently enables porto on a host. *)
Definition Enable (r : Porto) (disOthers : bool) (cgroupDriver : string)
  (inUserNamespace : bool) : prog (option error) :=
  orReturn (fun err => err)
    (if inUserNamespace then
       orReturn
         (fmt_Errorf_w "kernel >= 5.11 is required for rootless mode: %w")
         (trigger (CheckKernelCompatibility 5 11))
         (e <- trigger (CheckKernelCompatibility 5 13) ;;
          match e with
          | Some err =>
              trigger (klog Warning
                         "kernel >= 5.13 is recommended for rootless mode %v"
                         [AErr err]) ;;
              Ret None
          | None => Ret None
          end)
     else Ret None)
    ((if disOthers then
        e <- trigger disableOthers ;;
        match e with
        | Some err => trigger (klog Warning "disableOthers: %v" [AErr err])
        | None => Ret tt
        end
      else Ret tt) ;;
     orReturn (fun err => err) (trigger (populateCRIConfig (SocketPath r)))
    (orReturn (fun err => err)
       (generatePortoConfig (ImageRepository r) (KubernetesVersion r)
          cgroupDriver (InsecureRegistry r) inUserNamespace)
    (orReturn (fun err => err) (trigger enableIPForwarding)
    (orReturn (fun err => err) (trigger (Init_Restart "porto"))
    (orReturn (fun err => errors_Wrap err "pulling pause image")
       (PullImage r "registry.k8s.io/pause:3.7")
    (Ret None)))))).

(** [ImageExists] checks if image exists based on image name and
    optionally image sha. *)
Definition ImageExists (r : Porto) (name sha : string) : prog bool :=
  trigger (klog Info "Checking existence of image with name %q and sha %q"
             [AStr name; AStr sha]) ;;
  res <- trigger (Runner_RunCmd ["sudo"; "portoctl"; "docker-images"]) ;;
  match res with
  | inr _ => Ret false
  | inl rr =>
      if negb (Strings.Contains (Output rr) name)
         || (negb (sha =? "")%string
             && negb (Strings.Contains (Output rr) sha))
      then Ret false
      else Ret true
  end.

(** The image verbs this runtime does not implement. *)
Definition LoadImage (r : Porto) (path : string) : prog (option error) :=
  Ret (Some (errors_New "not implemented")).

Definition SaveImage (r : Porto) (name path : string)
  : prog (option error) :=
  Ret (Some (errors_New "not implemented")).

Definition TagImage (r : Porto) (source target : string)
  : prog (option error) :=
  Ret (Some (errors_New "not implemented")).

Definition BuildImage (r : Porto) (src file tag : string) (push : bool)
  (env opts : list string) : prog (option error) :=
  Ret (Some (errors_New "not implemented")).

Definition PushImage (r : Porto) (name : string) : prog (option error) :=
  Ret (Some (errors_New "not implemented")).

(** [CGroupDriver] returns cgroup driver. *)
Definition CGroupDriver (r : Porto) : result string := inl "systemd".

(** The innermost loop of [portoImagesPreloaded], over the tags of one
    inventory entry: the loop variable [i] is normalized before each
    comparison; the result is the final [i] and [found]. *)
Fixpoint scanRepoTags (i : string) (tags : list string) : string * bool :=
  match tags with
  | [] => (i, false)
  | rt :: tags' =>
      let i := addRepoTagToImageName i in
      if (i =? rt)%string then (i, true) else scanRepoTags i tags'
  end.

(** The middle loop, over the inventory entries. *)
Fixpoint scanImages (i : string) (imgs : list crictlImage)
  : string * bool :=
  match imgs with
  | [] => (i, false)
  | ji :: imgs' =>
      let (i, found) := scanRepoTags i (RepoTags ji) in
      if found then (i, true) else scanImages i imgs'
  end.

(** The outer loop, over the required images. *)
Fixpoint checkImages (images : list string) (jsonImages : crictlImages)
  : prog bool :=
  match images with
  | [] =>
      trigger (klog Info "all images are preloaded for porto runtime." []) ;;
      Ret true
  | i :: images' =>
      let (i, found) := scanImages i (Images jsonImages) in
      if negb found then
        trigger (klog Info
                   "couldn't find preloaded image for %q. assuming images are not preloaded."
                   [AStr i]) ;;
        Ret false
      else checkImages images' jsonImages
  end.

(** Whether the two inner loops end with [found] set for the required
    image [i]. *)
Definition found_in (jsonImages : crictlImages) (i : string) : bool :=
  snd (scanImages i (Images jsonImages)).

(** [portoImagesPreloaded] returns true if all images have been
    preloaded. *)
Definition portoImagesPreloaded (images : list string) : prog bool :=
  res <- trigger (Runner_RunCmd
                    ["sudo"; "crictl"; "images"; "--output"; "json"]) ;;
  match res with
  | inr _ => Ret false
  | inl rr =>
      match json_Unmarshal (Stdout rr) with
      | None =>
          trigger (klog Error
                     "failed to unmarshal images, will assume images are not preloaded"
                     []) ;;
          Ret false
      | Some jsonImages => checkImages images jsonImages
      end
  end.

(** [ImagesPreloaded] returns true if all images have been preloaded. *)
Definition ImagesPreloaded (r : Porto) (images : list string) : prog bool :=
  portoImagesPreloaded images.

(** The pull loop of [Preload]. *)
Fixpoint pullImages (r : Porto) (imageList : list string)
  : prog (option error) :=
  match imageList with
  | [] => Ret None
  | img :: imageList' =>
      orReturn (fun err => errors_Wrapf err "pulling image %q" [img])
        (PullImage r img)
        (pullImages r imageList')
  end.

(** [Preload] preloads the container runtime with k8s images. *)
Definition Preload (r : Porto) (cc : config.ClusterConfig)
  : prog (option error) :=
  let k8sVersion := config.KubernetesVersion (config.KubernetesConfig_ cc) in
  res <- trigger (images_Kubeadm
                    (config.ImageRepository (config.KubernetesConfig_ cc))
                    k8sVersion) ;;
  match res with
  | inr err => Ret (Some (errors_Wrap err "getting images"))
  | inl imageList =>
      preloaded <- portoImagesPreloaded imageList ;;
      if (preloaded : bool) then
        trigger (klog Info "Images already preloaded, skipping extraction"
                   []) ;;
        Ret None
      else
        orReturn (fun err => err) (pullImages r imageList) (Restart r)
  end.

End Adapter.

(** ** Presence of an image in an inventory *)

(** [name] is one of the tags of some entry of the inventory. *)
Definition present (jsonImages : crictlImages) (name : string) : Prop :=
  exists ji, In ji (Images jsonImages) /\ In name (RepoTags ji).

(** The criterion in the words of the specification: every required name
    has an entry with a tag equal to it once the normalization [norm] is
    applied to both the name and the tag. *)
Definition present_both_normalized (norm : string -> string)
  (jsonImages : crictlImages) (images : list string) : Prop :=
  Forall (fun i =>
            exists ji rt, In ji (Images jsonImages) /\ In rt (RepoTags ji)
                          /\ norm i = norm rt)
         images.

(** ** The version pattern, scanned directly *)

(** The longest prefix of non-space bytes. *)
Fixpoint nonspacePrefix (s : string) : string :=
  match s with
  | String c s' =>
      if Regexp.nonspace c then String c (nonspacePrefix s') else EmptyString
  | EmptyString => EmptyString
  end.

(** What is left after the longest prefix of non-space bytes. *)
Fixpoint nonspaceRest (s : string) : string :=
  match s with
  | String c s' => if Regexp.nonspace c then nonspaceRest s' else s
  | EmptyString => EmptyString
  end.

(** The first place where a digit is followed by a dot, with the
    non-space bytes after it. *)
Fixpoint firstDigitDot (s : string) : option string :=
  match s with
  | String d ((String c t) as s') =>
      if Regexp.digit d && Ascii.eqb c "."
      then Some (String d (String c (nonspacePrefix t)))
      else firstDigitDot s'
  | _ => None
  end.

(** The pattern of the specification, one or more digits, a dot and a
    greedy run of non-space bytes. *)
Definition rg_digits : Regexp.regex :=
  Regexp.Cat (Regexp.Class Regexp.digit)
    (Regexp.Cat (Regexp.Star (Regexp.Class Regexp.digit))
       (Regexp.Cat (Regexp.Lit ".")
          (Regexp.Star (Regexp.Class Regexp.nonspace)))).

(** ** A concrete package and concrete hosts *)

(** Modelled from the spec: the add-default-repository normalization of
    an image name (helper [addRepoTagToImageName], defined outside this
    file): a name without a registry host gets the default one.  The
    facts below are proved for every [Package]; this instance serves the
    runs on concrete hosts. *)
Definition defaultRepoTag (imgName : string) : string :=
  if Strings.Contains imgName ".io/" then imgName
  else ("docker.io/" ++ imgName)%string.

Definition demoInventory : crictlImages :=
  {| Images :=
       [ {| ID := "sha256:221177c6"; RepoTags := ["registry.k8s.io/pause:3.7"] |};
         {| ID := "sha256:beae173c";
            RepoTags := ["docker.io/library/busybox:latest"; "pause:3.7"] |} ] |}.

Definition demoPackage : Package :=
  {| Output := fun rr => (Stdout rr ++ Stderr rr)%string;
     addRepoTagToImageName := defaultRepoTag;
     json_Unmarshal := fun s =>
       if (s =? "<inventory>")%string then Some demoInventory else None |}.

(** The answers of a scripted host. *)
Record answers : Type :=
  { onRunCmd : list string -> result RunResult;
    onActive : bool;
    onRestart : option error;
    onGate : Z -> Z -> option error;
    onPull : string -> option error;
    onKubeadm : result (list string);
    onOther : option error }.

(** A host whose state is the list of the calls it has answered, latest
    first. *)
Definition scripted (a : answers) (c : call) (w : list call)
  : ret c * list call :=
  (match c return ret c with
   | Runner_RunCmd argv => onRunCmd a argv
   | Init_Active _ => onActive a
   | Init_Restart _ => onRestart a
   | CheckKernelCompatibility major minor => onGate a major minor
   | pullCRIImage name => onPull a name
   | images_Kubeadm _ _ => onKubeadm a
   | klog _ _ _ => tt
   | Init_ForceStop _ | disableOthers | populateCRIConfig _
   | enableIPForwarding | removeCRIImage _ => onOther a
   end, c :: w).

(** Every command succeeds; the inventory query prints the inventory. *)
Definition healthy : answers :=
  {| onRunCmd := fun argv =>
       inl {| Stdout :=
                match argv with
                | ["sudo"; "crictl"; "images"; "--output"; "json"] =>
                    "<inventory>"
                | _ => "registry.k8s.io/pause 3.7 221177c6"
                end;
              Stderr := "" |};
     onActive := true;
     onRestart := None;
     onGate := fun _ _ => None;
     onPull := fun _ => None;
     onKubeadm := inl ["registry.k8s.io/pause:3.7"];
     onOther := None |}.

(** The command runner is broken. *)
Definition unreachable : answers :=
  {| onRunCmd := fun _ => inr (errors_New "ssh: connection refused");
     onActive := false;
     onRestart := None;
     onGate := fun _ _ => None;
     onPull := fun _ => None;
     onKubeadm := inl ["registry.k8s.io/pause:3.7"];
     onOther := None |}.

(** The inventory query prints something that is not the inventory. *)
Definition garbled : answers :=
  {| onRunCmd := fun _ => inl {| Stdout := "Usage: crictl"; Stderr := "" |};
     onActive := true;
     onRestart := None;
     onGate := fun _ _ => None;
     onPull := fun _ => None;
     onKubeadm := inl ["registry.k8s.io/pause:3.7"];
     onOther := None |}.

Definition demoPorto : Porto :=
  {| Socket := "";
     ImageRepository := "";
     KubernetesVersion := {| semver.Major := 1; semver.Minor := 26; semver.Patch := 1 |};
     InsecureRegistry := [] |}.

Definition demoCluster : config.ClusterConfig :=
  {| config.KubernetesConfig_ :=
       {| config.KubernetesVersion := "v1.26.1";
          config.ImageRepository := "" |} |}.

(** A host with the inventory of [healthy] whose catalog asks for an image
    the inventory lacks. *)
Definition cold : answers :=
  {| onRunCmd := onRunCmd healthy;
     onActive := true;
     onRestart := None;
     onGate := fun _ _ => None;
     onPull := fun _ => None;
     onKubeadm := inl ["img:v3"];
     onOther := None |}.

(** The kernel is older than 5.13, and older than 5.11 when [hard]. *)
Definition oldKernel (hard : bool) : answers :=
  {| onRunCmd := onRunCmd healthy;
     onActive := false;
     onRestart := None;
     onGate := fun _ minor =>
       if hard || (13 <=? minor)%Z
       then Some (errors_New "kernel version is too old")
       else None;
     onPull := fun _ => None;
     onKubeadm := onKubeadm healthy;
     onOther := None |}.

(** The steps of [Enable] before the pause-image pull whose failure ends
    it: the hard kernel gate, the CRI configuration, IP forwarding and the
    restart of the service. *)
Definition fatal_step (e : event) : bool :=
  match call_of e with
  | CheckKernelCompatibility major minor =>
      (major =? 5)%Z && (minor =? 11)%Z && failed e
  | populateCRIConfig _ | enableIPForwarding | Init_Restart _ => failed e
  | _ => false
  end.

(** The query [Preload] sends to the image catalog. *)
Definition catalog (cc : config.ClusterConfig) : call :=
  images_Kubeadm (config.ImageRepository (config.KubernetesConfig_ cc))
    (config.KubernetesVersion (config.KubernetesConfig_ cc)).

(** The pulls and restarts of a trace, in order. *)
Definition pulls_and_restarts (tr : list event) : list call :=
  filter (fun c => is_pull c || is_restart c) (calls tr).

(** The successful pulls of a list of images. *)
Definition all_pulled (imageList : list string) : list event :=
  map (fun img => pulled img None) imageList.

(** The image [Enable] pulls at its end. *)
Definition pauseImage : string := "registry.k8s.io/pause:3.7".

(** How a run of [Enable] ends, by its trace [tr] and result [v]: either
    its last call is the pull of the pause image, the only pull, no step
    before it failed fatally and the result is the pull's error wrapped
    with "pulling pause image" (nil for nil); or one of the earlier steps
    failed fatally, nothing was pulled and the result is an error. *)
Definition pause_pull_or_abort (tr : list event) (v : option error) : Prop :=
  (exists steps e,
      tr = steps ++ [pulled pauseImage e]
      /\ existsb fatal_step steps = false
      /\ existsb is_pull (calls steps) = false
      /\ v = match e with
             | Some err => Some (errors_Wrap err "pulling pause image")
             | None => None
             end)
  \/ (existsb fatal_step tr = true
      /\ existsb is_pull (calls tr) = false
      /\ v <> None).

(** ** Vocabulary for the rest of the adapter *)

(** The line has an ASCII digit immediately followed by a dot. *)
Definition has_digit_dot (line : string) : Prop :=
  exists d, Regexp.digit d = true /\ Strings.occurs_in (String d ".") line.

(** The command of [Version]. *)
Definition versionQuery : call := Runner_RunCmd ["portod"; "version"].

(** The four steps of [Enable] that follow the gates and the disabling of
    the other runtimes, in the order of the source. *)
Definition is_step (c : call) : bool :=
  match c with
  | populateCRIConfig _ | enableIPForwarding | Init_Restart _
  | pullCRIImage _ => true
  | _ => false
  end.

Definition EnableSteps (r : Porto) : list call :=
  [populateCRIConfig (SocketPath r); enableIPForwarding;
   Init_Restart "porto"; pullCRIImage pauseImage].

(** A call whose failure ends [Enable]: a fatal step or a failed pull. *)
Definition ends_run (e : event) : bool :=
  fatal_step e || (is_pull (call_of e) && failed e).

(** The warning [Enable] logs when the other runtimes cannot be
    disabled. *)
Definition disableWarning (err : error) : call :=
  klog Warning "disableOthers: %v" [AErr err].

(** The image catalog is out of reach. *)
Definition noCatalog : answers :=
  {| onRunCmd := onRunCmd healthy;
     onActive := true;
     onRestart := None;
     onGate := fun _ _ => None;
     onPull := fun _ => None;
     onKubeadm := inr (errors_New "unsupported Kubernetes version");
     onOther := None |}.

(** The command runner is broken and the catalog asks for two images. *)
Definition offline : answers :=
  {| onRunCmd := onRunCmd unreachable;
     onActive := false;
     onRestart := None;
     onGate := fun _ _ => None;
     onPull := fun _ => None;
     onKubeadm := inl ["registry.k8s.io/pause:3.7"; "registry.k8s.io/etcd:3.5.6-0"];
     onOther := None |}.

(** A normalization that is not idempotent: it appends a byte. *)
Definition primedPackage : Package :=
  {| Output := Stdout;
     addRepoTagToImageName := fun s => (s ++ "'")%string;
     json_Unmarshal := fun _ =>
       Some {| Images := [ {| ID := "1"; RepoTags := ["a"; "b''"] |} ] |} |}.

(** ** The version-bump programs (hack/update/porto_version and
    hack/update/portoshim_version) *)

(** Package [update], as far as the two programs use it. *)
Module update.

(** Modelled from the spec: a release of the release index (type
    [update.Release], declared outside these files): its tag and its
    commit. *)
Record Release : Type := { Tag : string; Commit : string }.

(** Modelled from the spec: the rewrite of one file (type [update.Item],
    declared outside these files): the patterns to replace with their
    templates. *)
Record Item : Type := { Replace : list (string * string) }.

End update.

Module Updater.

(** What a program hands to the templates of its schema. *)
Record Data : Type := { Version : string; Commit : string }.

(** The part of an HTTP response the programs look at. *)
Record Response : Type := { Status : string; StatusCode : Z }.

Inductive openFlag : Type := O_APPEND | O_WRONLY.

(** An error built by [fmt.Errorf] with one verb and its argument. *)
Inductive failure : Type :=
| Errorf (format : string) (arg : fmtarg).

(** What [klog.Fatalf] is given to print. *)
Inductive cause : Type :=
| Upstream (err : error)
| Local (f : failure).

(** The calls of the two programs that leave them; the response body and
    the opened file are the ones of the run. *)
Inductive io : Type :=
| GHReleases (org repo : string)
| Apply (schema : list (string * update.Item)) (data : Data)
| http_Get (url : string)
| Body_Read
| Body_Close
| os_ReadFile (name : string)
| os_OpenFile (name : string) (flag : list openFlag) (perm : N)
| File_WriteString (s : string)
| File_Close
| klog_Infof (format : string) (args : list string)
| klog_Fatalf (format : string) (arg : cause).

Definition io_ret (c : io) : Type :=
  match c with
  | GHReleases _ _ => result update.Release
  | http_Get _ => result Response
  | Body_Read | os_ReadFile _ => result string
  | os_OpenFile _ _ _ | File_WriteString _ => option error
  | Apply _ _ | Body_Close | File_Close | klog_Infof _ _
  | klog_Fatalf _ _ => unit
  end.

Inductive script (A : Type) : Type :=
| Done (a : A)
| Call (c : io) (k : io_ret c -> script A).

Arguments Done {A} a.
Arguments Call {A} c k.

Fixpoint andThen {A B : Type} (p : script A) (f : A -> script B)
  : script B :=
  match p with
  | Done a => f a
  | Call c k => Call c (fun r => andThen (k r) f)
  end.

Definition perform (c : io) : script (io_ret c) := Call c (fun r => Done r).

Declare Scope script_scope.
Notation "x <- p ;; q" := (andThen p (fun x => q))
  (at level 61, p at next level, right associativity) : script_scope.
Notation "p ;; q" := (andThen p (fun _ => q))
  (at level 61, right associativity) : script_scope.
Local Open Scope script_scope.

Inductive step : Type := Did (c : io) (r : io_ret c).

Definition io_of (e : step) : io := let (c, _) := e in c.

Record run (A W : Type) : Type :=
  { returned : A; world : W; steps : list step }.

Section Play.
Variable W : Type.
Variable env : forall c : io, W -> io_ret c * W.

Fixpoint play {A : Type} (p : script A) (w : W) : run A W :=
  match p with
  | Done a => {| returned := a; world := w; steps := [] |}
  | Call c k =>
      let (r, w1) := env c w in
      let o := play (k r) w1 in
      {| returned := returned o; world := world o;
         steps := Did c r :: steps o |}
  end.
End Play.

(** The line feed. *)
Definition LF : string := String (ascii_of_nat 10) "".

(** The verb [%x] on a byte slice: two lower-case hexadecimal digits for
    each byte. *)
Definition hexDigit (n : nat) : ascii :=
  match String.get n "0123456789abcdef" with
  | Some c => c
  | None => "0"%char
  end.

Fixpoint hex (bytes : string) : string :=
  match bytes with
  | EmptyString => EmptyString
  | String c bytes' =>
      let n := nat_of_ascii c in
      String (hexDigit (n / 16)) (String (hexDigit (n mod 16)) (hex bytes'))
  end.

Definition is_open (c : io) : bool :=
  match c with os_OpenFile _ _ _ => true | _ => false end.
Definition is_write (c : io) : bool :=
  match c with File_WriteString _ => true | _ => false end.
Definition is_file_close (c : io) : bool :=
  match c with File_Close => true | _ => false end.
Definition is_body_close (c : io) : bool :=
  match c with Body_Close => true | _ => false end.
Definition is_hash_file_call (c : io) : bool :=
  match c with
  | os_ReadFile _ | os_OpenFile _ _ _ | File_WriteString _ | File_Close =>
      true
  | _ => false
  end.

(** A download that succeeded, a file that was opened. *)
Definition got (e : step) : bool :=
  match e with Did (http_Get _) (inl _) => true | _ => false end.
Definition opened (e : step) : bool :=
  match e with Did (os_OpenFile _ _ _) None => true | _ => false end.

(** What a step shows: the response of a download, the content read from
    a file, the string written to the opened file. *)
Definition downloaded (e : step) : option Response :=
  match e with Did (http_Get _) (inl resp) => Some resp | _ => None end.
Definition fileRead (e : step) : option string :=
  match e with Did (os_ReadFile _) (inl content) => Some content | _ => None end.
Definition written (e : step) : option string :=
  match e with Did (File_WriteString s) _ => Some s | _ => None end.

End Updater.

(** hack/update/porto_version/update_porto_version.go *)
Module porto_version.
Import Updater.
Local Open Scope script_scope.

Definition schema : list (string * update.Item) :=
  [ ("deploy/iso/minikube-iso/arch/x86_64/package/porto-bin/porto-bin.mk",
     {| update.Replace :=
          [ ("PORTO_BIN_VERSION = .*", "PORTO_BIN_VERSION = {{.Version}}");
            ("PORTO_BIN_COMMIT = .*", "PORTO_BIN_COMMIT = {{.Commit}}") ] |}) ].

(** The archive of a release, the hash file of the package and the line
    that records the archive's digest in it. *)
Definition link (version arch : string) : string :=
  ("https://github.com/go-faster/porto/releases/download/" ++ version
   ++ "/porto_focal_" ++ version ++ "_" ++ arch ++ ".tgz")%string.

Definition hashFile (packagePath : string) : string :=
  ("../../../deploy/iso/minikube-iso/arch/" ++ packagePath
   ++ "/porto-bin.hash")%string.

Definition hashLine (sum version arch : string) : string :=
  ("sha256 " ++ hex sum ++ "  porto_focal_" ++ version ++ "_" ++ arch
   ++ ".tgz" ++ LF)%string.

Section Hash.
(** The SHA-256 digest of a byte string (package crypto/sha256). *)
Variable sha256_Sum : string -> string.

(** [updateHashFile]: the deferred [r.Body.Close()] and [f.Close()] run
    when the function returns, the file first. *)
Definition updateHashFile (version arch packagePath : string)
  : script (option failure) :=
  r <- perform (http_Get (link version arch)) ;;
  match r with
  | inr err =>
      Done (Some (Errorf "failed to download binary: %v" (AErr err)))
  | inl resp =>
      res <-
        (if negb (StatusCode resp =? 200)%Z then
           Done (Some (Errorf "failed to download binary: %s"
                         (AStr (Status resp))))
         else
           body <- perform Body_Read ;;
           match body with
           | inr err =>
               Done (Some (Errorf "failed to copy response body: %v"
                             (AErr err)))
           | inl bytes =>
               let filePath := hashFile packagePath in
               b <- perform (os_ReadFile filePath) ;;
               match b with
               | inr err =>
                   Done (Some (Errorf "failed to read hash file: %v"
                                 (AErr err)))
               | inl content =>
                   if Strings.Contains content version then
                     perform (klog_Infof "hash file already contains %q"
                                [version]) ;;
                     Done None
                   else
                     f <- perform (os_OpenFile filePath [O_APPEND; O_WRONLY]
                                     420) ;;
                     match f with
                     | Some err =>
                         Done (Some (Errorf "failed to open hash file: %v"
                                       (AErr err)))
                     | None =>
                         res <-
                           (wr <- perform
                                    (File_WriteString
                                       (hashLine (sha256_Sum bytes) version
                                          arch)) ;;
                            match wr with
                            | Some err =>
                                Done (Some (Errorf
                                              "failed to write to hash file: %v"
                                              (AErr err)))
                            | None => Done None
                            end) ;;
                         perform File_Close ;;
                         Done res
                     end
               end
           end) ;;
      perform Body_Close ;;
      Done res
  end.

(** [main]; [klog.Fatalf] ends the process, so nothing follows it. *)
Definition main : script unit :=
  rel <- perform (GHReleases "go-faster" "porto") ;;
  match rel with
  | inr err =>
      perform (klog_Fatalf "Unable to get edge version: %v" (Upstream err))
  | inl edge =>
      let version := update.Tag edge in
      let data := {| Version := version; Commit := update.Commit edge |} in
      perform (Apply schema data) ;;
      e <- updateHashFile version "amd64" "x86_64/package/porto-bin" ;;
      match e with
      | Some err =>
          perform (klog_Fatalf "failed updating amd64 hash file: %v"
                     (Local err))
      | None => Done tt
      end
  end.

End Hash.
End porto_version.

(** hack/update/portoshim_version/update_portoshim_version.go *)
Module portoshim_version.
Import Updater.
Local Open Scope script_scope.

Definition schema : list (string * update.Item) :=
  [ ("deploy/iso/minikube-iso/arch/x86_64/package/portoshim-bin/portoshim-bin.mk",
     {| update.Replace :=
          [ ("PORTOSHIM_BIN_VERSION = .*",
             "PORTOSHIM_BIN_VERSION = {{.Version}}");
            ("PORTOSHIM_BIN_COMMIT = .*",
             "PORTOSHIM_BIN_COMMIT = {{.Commit}}") ] |}) ].

Definition link (version arch : string) : string :=
  ("https://github.com/go-faster/portoshim/releases/download/v" ++ version
   ++ "/portoshim_focal_" ++ version ++ "_" ++ arch ++ ".tgz")%string.

Definition hashFile (packagePath : string) : string :=
  ("../../../deploy/iso/minikube-iso/arch/" ++ packagePath
   ++ "/portoshim-bin.hash")%string.

Definition hashLine (sum version arch : string) : string :=
  ("sha256 " ++ hex sum ++ "  portoshim_focal_" ++ version ++ "_" ++ arch
   ++ ".tgz" ++ LF)%string.

Section Hash.
Variable sha256_Sum : string -> string.

(** [updateHashFile]: the status of the response is not looked at. *)
Definition updateHashFile (version arch packagePath : string)
  : script (option failure) :=
  r <- perform (http_Get (link version arch)) ;;
  match r with
  | inr err =>
      Done (Some (Errorf "failed to download source code: %v" (AErr err)))
  | inl resp =>
      res <-
        (body <- perform Body_Read ;;
         match body with
         | inr err =>
             Done (Some (Errorf "failed to read response body: %v"
                           (AErr err)))
         | inl bytes =>
             let sum := sha256_Sum bytes in
             let filePath := hashFile packagePath in
             b <- perform (os_ReadFile filePath) ;;
             match b with
             | inr err =>
                 Done (Some (Errorf "failed to read hash file: %v"
                               (AErr err)))
             | inl content =>
                 if Strings.Contains content version then
                   perform (klog_Infof "hash file already contains %q"
                              [version]) ;;
                   Done None
                 else
                   f <- perform (os_OpenFile filePath [O_APPEND; O_WRONLY]
                                   420) ;;
                   match f with
                   | Some err =>
                       Done (Some (Errorf "failed to open hash file: %v"
                                     (AErr err)))
                   | None =>
                       res <-
                         (wr <- perform
                                  (File_WriteString
                                     (hashLine sum version arch)) ;;
                          match wr with
                          | Some err =>
                              Done (Some (Errorf
                                            "failed to write to hash file: %v"
                                            (AErr err)))
                          | None => Done None
                          end) ;;
                       perform File_Close ;;
                       Done res
                   end
             end
         end) ;;
      perform Body_Close ;;
      Done res
  end.

Definition main : script unit :=
  rel <- perform (GHReleases "go-faster" "portoshim") ;;
  match rel with
  | inr err =>
      perform (klog_Fatalf "Unable to get edge version: %v" (Upstream err))
  | inl edge =>
      let version := update.Tag edge in
      let data := {| Version := version; Commit := update.Commit edge |} in
      perform (Apply schema data) ;;
      e <- updateHashFile version "amd64" "x86_64/package/portoshim-bin" ;;
      match e with
      | Some err =>
          perform (klog_Fatalf "failed updating amd64 hash file: %v"
                     (Local err))
      | None => Done tt
      end
  end.

End Hash.
End portoshim_version.

(** A release mirror for concrete runs: the download answers with the
    given status, the hash file has the given content, and every other
    call succeeds.  Its state is the list of the calls answered, latest
    first. *)
Definition mirror (status : Z) (content : string) (c : Updater.io)
  (w : list Updater.io) : Updater.io_ret c * list Updater.io :=
  (match c return Updater.io_ret c with
   | Updater.GHReleases _ _ =>
       inl {| update.Tag := "v5.3.31"; update.Commit := "4a1c2f9" |}
   | Updater.http_Get _ =>
       inl {| Updater.Status := if (status =? 200)%Z then "200 OK"
                                else "404 Not Found";
              Updater.StatusCode := status |}
   | Updater.Body_Read => inl "archive"
   | Updater.os_ReadFile _ => inl content
   | Updater.os_OpenFile _ _ _ => None
   | Updater.File_WriteString _ => None
   | Updater.Apply _ _ | Updater.Body_Close | Updater.File_Close
   | Updater.klog_Infof _ _ | Updater.klog_Fatalf _ _ => tt
   end, c :: w).

(** A stand-in digest for concrete runs. *)
Definition toyDigest (bytes : string) : string := "digest-of-" ++ bytes.

(** A package that decodes two inventories, the second being the first
    with one more entry in front, and a host that prints the first
    inventory on its first call and the second afterwards. *)
Definition grownInventory : crictlImages :=
  {| Images :=
       {| ID := "sha256:a1b2c3d4";
          RepoTags := ["registry.k8s.io/etcd:3.5.6-0"] |}
       :: Images demoInventory |}.

Definition shelfPackage : Package :=
  {| Output := Stdout;
     addRepoTagToImageName := defaultRepoTag;
     json_Unmarshal := fun s =>
       if (s =? "<inventory>")%string then Some demoInventory
       else if (s =? "<inventory+>")%string then Some grownInventory
       else None |}.

Definition growing (c : call) (w : list call) : ret c * list call :=
  match w with
  | [] => scripted healthy c w
  | _ :: _ =>
      (match c return ret c with
       | Runner_RunCmd _ => inl {| Stdout := "<inventory+>"; Stderr := "" |}
       | c' => fst (scripted healthy c' w)
       end, c :: w)
  end.

(* ===================================================================== *)
(** * Facts *)

(** ** Strings *)

Lemma prefix_occurs : forall p s,
  String.prefix p s = true -> exists b, s = (p ++ b)%string.
Proof.
  induction p as [|c p IH]; intros s H.
  - exists s. reflexivity.
  - destruct s as [|d s]; simpl in H; [discriminate|].
    destruct (Ascii.ascii_dec c d) as [->|]; [|discriminate].
    destruct (IH _ H) as [b ->]. exists b. reflexivity.
Qed.

Lemma prefix_append : forall p b, String.prefix p (p ++ b) = true.
Proof.
  induction p as [|c p IH]; intros b; simpl.
  - destruct b; reflexivity.
  - destruct (Ascii.ascii_dec c c); [apply IH|congruence].
Qed.

Lemma Contains_unfold : forall s substr,
  Strings.Contains s substr
  = if String.prefix substr s then true
    else match s with
         | EmptyString => false
         | String _ s' => Strings.Contains s' substr
         end.
Proof. destruct s; reflexivity. Qed.

Lemma Contains_occurs : forall s substr,
  Strings.Contains s substr = true <-> Strings.occurs_in substr s.
Proof.
  intros s substr. unfold Strings.occurs_in. split.
  - induction s as [|c s IH]; rewrite Contains_unfold; intros H.
    + destruct (String.prefix substr "") eqn:E; [|discriminate].
      destruct (prefix_occurs _ _ E) as [b Hb]. exists "", b. exact Hb.
    + destruct (String.prefix substr (String c s)) eqn:E.
      * destruct (prefix_occurs _ _ E) as [b Hb]. exists "", b. exact Hb.
      * destruct (IH H) as (a & b & ->). exists (String c a), b. reflexivity.
  - intros (a & b & ->). induction a as [|c a IH].
    + rewrite Contains_unfold. change ("" ++ substr ++ b)%string
        with (substr ++ b)%string.
      rewrite prefix_append. reflexivity.
    + rewrite Contains_unfold.
      destruct (String.prefix _ _); [reflexivity|]. exact IH.
Qed.

(** ** The version pattern *)

Lemma nonspaceRest_length : forall s,
  String.length (nonspaceRest s) <= String.length s.
Proof.
  induction s as [|c s IH]; simpl; [lia|].
  destruct (Regexp.nonspace c); simpl; lia.
Qed.

Lemma starLoop_nonspace : forall fuel s,
  String.length s <= fuel ->
  Regexp.starLoop (Regexp.matchK (Regexp.Class Regexp.nonspace)) Some fuel s
  = Some (nonspaceRest s).
Proof.
  induction fuel as [|fuel IH]; intros s Hlen.
  - destruct s; [reflexivity|simpl in Hlen; lia].
  - destruct s as [|c s]; [reflexivity|].
    simpl. destruct (Regexp.nonspace c); [|reflexivity].
    replace (String.length s <? S (String.length s))%nat with true
      by (symmetry; apply Nat.ltb_lt; lia).
    rewrite IH by (simpl in Hlen; lia). reflexivity.
Qed.

Lemma substring_nonspacePrefix : forall s,
  String.substring 0 (String.length s - String.length (nonspaceRest s)) s
  = nonspacePrefix s.
Proof.
  induction s as [|c s IH]; [reflexivity|].
  simpl nonspaceRest. simpl nonspacePrefix.
  destruct (Regexp.nonspace c).
  - pose proof (nonspaceRest_length s).
    replace (String.length (String c s) - String.length (nonspaceRest s))
      with (S (String.length s - String.length (nonspaceRest s)))
      by (change (String.length (String c s)) with (S (String.length s)); lia).
    simpl. rewrite IH. reflexivity.
  - rewrite Nat.sub_diag. reflexivity.
Qed.

(** At one position the pattern matches exactly when a digit and a dot
    stand there, and then it takes the non-space bytes that follow. *)
Lemma matchPrefix_rg : forall s,
  Regexp.matchPrefix rg s
  = match s with
    | String d (String c t) =>
        if Regexp.digit d && Ascii.eqb c "."
        then Some (String d (String c (nonspacePrefix t)))
        else None
    | _ => None
    end.
Proof.
  intros [|d [|c t]]; unfold Regexp.matchPrefix, rg.
  - reflexivity.
  - cbn [Regexp.matchK]. destruct (Regexp.digit d); reflexivity.
  - cbn [Regexp.matchK]. destruct (Regexp.digit d); [|reflexivity].
    destruct (Ascii.eqb c "."); [|reflexivity]. cbn [andb].
    rewrite starLoop_nonspace by lia.
    pose proof (nonspaceRest_length t).
    change (String.length (String d (String c t)))
      with (S (S (String.length t))).
    replace (S (S (String.length t)) - String.length (nonspaceRest t))
      with (S (S (String.length t - String.length (nonspaceRest t))))
      by lia.
    cbn [String.substring]. rewrite substring_nonspacePrefix. reflexivity.
Qed.

(** The leftmost match of the pattern is the first digit-dot place. *)
Lemma FindString_rg : forall s, Regexp.FindString rg s = firstDigitDot s.
Proof.
  induction s as [|d s IH]; [reflexivity|].
  cbn [Regexp.FindString]. rewrite matchPrefix_rg.
  destruct s as [|c t].
  - reflexivity.
  - cbn [firstDigitDot].
    destruct (Regexp.digit d && Ascii.eqb c "."); [reflexivity|exact IH].
Qed.

(** What [parsePortoVersion] computes. *)
Lemma parsePortoVersion_scan : forall line,
  parsePortoVersion line
  = match firstDigitDot line with
    | Some v => inl v
    | None => inr (fmt_Errorf "unknown version: %q" [line])
    end.
Proof.
  intros line. unfold parsePortoVersion, Regexp.FindStringSubmatch.
  rewrite FindString_rg. destruct (firstDigitDot line); reflexivity.
Qed.

(** The version token loses every digit before the one that precedes the
    first dot. *)
Lemma parsePortoVersion_two_digits : forall d1 d2 t,
  Regexp.digit d2 = true ->
  parsePortoVersion (String d1 (String d2 (String "." t)))
  = inl (String d2 (String "." (nonspacePrefix t))).
Proof.
  intros d1 d2 t H2. rewrite parsePortoVersion_scan.
  cbn [firstDigitDot]. rewrite H2.
  replace (Regexp.digit d1 && Ascii.eqb d2 ".") with false.
  - reflexivity.
  - destruct (Ascii.eqb_spec d2 "."); [subst; discriminate H2|].
    now rewrite andb_false_r.
Qed.

(** C2, at a version whose major number has two digits: the parser returns
    the token without its first digit, where the pattern with one or more
    leading digits finds the whole token. *)
Theorem parsePortoVersion_drops_leading_digit :
  parsePortoVersion "version: 12.3.4  /usr/sbin/portod" = inl "2.3.4"
  /\ Regexp.FindString rg_digits "version: 12.3.4  /usr/sbin/portod"
     = Some "12.3.4".
Proof. split; reflexivity. Qed.

(** A line without a digit followed by a dot is rejected, and the error
    carries the line. *)
Lemma parsePortoVersion_unknown : forall line,
  firstDigitDot line = None ->
  parsePortoVersion line = inr (fmt_Errorf "unknown version: %q" [line]).
Proof.
  intros line H. rewrite parsePortoVersion_scan, H. reflexivity.
Qed.

(** ** Running programs *)

Section Running.
Context {W : Type} (host : forall c : call, W -> ret c * W).

Lemma exec_Vis : forall A c (k : ret c -> prog A) w,
  exec host (Vis c k) w
  = let o := exec host (k (answer host c w)) (after host c w) in
    {| value := value o; final := final o;
       trace := Ev c (answer host c w) :: trace o |}.
Proof.
  intros. unfold answer, after. simpl. destruct (host c w). reflexivity.
Qed.

Lemma exec_bind : forall A B (p : prog A) (f : A -> prog B) w,
  exec host (bind p f) w
  = let o := exec host p w in
    let o' := exec host (f (value o)) (final o) in
    {| value := value o'; final := final o';
       trace := trace o ++ trace o' |}.
Proof.
  intros A B p f. induction p as [a|c k IH]; intros w.
  - simpl. destruct (exec host (f a) w); reflexivity.
  - simpl. destruct (host c w) as [r w1]. rewrite IH. reflexivity.
Qed.

Lemma exec_orReturn : forall wrap p k w,
  exec host (orReturn wrap p k) w
  = let o := exec host p w in
    match value o with
    | Some err =>
        {| value := Some (wrap err); final := final o; trace := trace o |}
    | None =>
        let o' := exec host k (final o) in
        {| value := value o'; final := final o';
           trace := trace o ++ trace o' |}
    end.
Proof.
  intros. unfold orReturn. rewrite exec_bind. cbv zeta.
  destruct (value (exec host p w)); simpl.
  - rewrite app_nil_r. reflexivity.
  - reflexivity.
Qed.

Lemma outcome_eta : forall A (o : outcome A W),
  {| value := value o; final := final o; trace := trace o |} = o.
Proof. intros A []. reflexivity. Qed.

Lemma exec_orReturn_nil : forall wrap k w,
  exec host (orReturn wrap (Ret None) k) w = exec host k w.
Proof. intros. rewrite exec_orReturn. apply outcome_eta. Qed.

End Running.

(** ** The image verbs *)

Section ImageVerbs.
Context {pkg : Package}.
Context {W : Type} (host : forall c : call, W -> ret c * W).

(** C5: whatever the arguments and the host, each of LoadImage,
    SaveImage, TagImage, BuildImage and PushImage returns the error
    "not implemented"; it makes no call at all (so none to the command
    runner) and leaves the host as it was. *)
Theorem unsupported_verbs_refuse :
  forall (w : W) (r : Porto) (path name source target src file tag : string)
         (push : bool) (env opts : list string),
    let refused := {| value := Some (errors_New "not implemented");
                      final := w; trace := [] |} in
    exec host (LoadImage r path) w = refused
    /\ exec host (SaveImage r name path) w = refused
    /\ exec host (TagImage r source target) w = refused
    /\ exec host (BuildImage r src file tag push env opts) w = refused
    /\ exec host (PushImage r name) w = refused.
Proof. intros. repeat split. Qed.

Lemma ImageExists_value : forall (w : W) r name sha,
  value (exec host (ImageExists r name sha) w)
  = match answer host listing (after host (checking name sha) w) with
    | inr _ => false
    | inl rr =>
        Strings.Contains (Output rr) name
        && ((sha =? "")%string || Strings.Contains (Output rr) sha)
    end.
Proof.
  intros. unfold ImageExists. cbn [bind trigger].
  rewrite exec_Vis. cbv zeta. cbn [value]. rewrite exec_Vis. cbv zeta.
  cbn [value]. fold listing. fold (checking name sha).
  destruct (answer host listing (after host (checking name sha) w))
    as [rr|err]; [|reflexivity].
  destruct (Strings.Contains (Output rr) name);
    destruct (sha =? "")%string;
    destruct (Strings.Contains (Output rr) sha); reflexivity.
Qed.

(** C9: when the listing command succeeds with result [rr],
    [ImageExists name sha] is true exactly when the output of [rr]
    contains [name] and, for a non-empty [sha], contains [sha] too; for
    the empty [sha] only the name counts. *)
Theorem ImageExists_substrings :
  forall (w : W) r name sha rr,
    answer host listing (after host (checking name sha) w) = inl rr ->
    (value (exec host (ImageExists r name sha) w) = true
     <-> Strings.occurs_in name (Output rr)
         /\ (sha <> "" -> Strings.occurs_in sha (Output rr)))
    /\ (sha = "" ->
        (value (exec host (ImageExists r name sha) w) = true
         <-> Strings.occurs_in name (Output rr))).
Proof.
  intros w r name sha rr Hrr. rewrite ImageExists_value, Hrr.
  rewrite andb_true_iff, orb_true_iff, String.eqb_eq, !Contains_occurs.
  split.
  - split.
    + intros [Hn Hs]. split; [exact Hn|].
      intros Hne. destruct Hs as [Hs|Hs]; [contradiction|exact Hs].
    + intros [Hn Hs]. split; [exact Hn|].
      destruct (String.string_dec sha "") as [He|Hne];
        [left; exact He|right; exact (Hs Hne)].
  - intros He. split.
    + intros [Hn _]. exact Hn.
    + intros Hn. split; [exact Hn|left; exact He].
Qed.

(** C10: when the listing command fails, [ImageExists] is false for
    every name and sha; the result is a boolean, so the failure of the
    command cannot be told from the absence of the image. *)
Theorem ImageExists_listing_fails :
  forall (w : W) r name sha err,
    answer host listing (after host (checking name sha) w) = inr err ->
    value (exec host (ImageExists r name sha) w) = false.
Proof.
  intros w r name sha err Herr. rewrite ImageExists_value, Herr.
  reflexivity.
Qed.

End ImageVerbs.

(** ** The preload check *)

Section Matcher.
Context {pkg : Package}.
Context {W : Type} (host : forall c : call, W -> ret c * W).

Lemma checkImages_value : forall images jsonImages (w : W),
  value (exec host (checkImages images jsonImages) w)
  = forallb (found_in jsonImages) images.
Proof.
  induction images as [|i images IH]; intros jsonImages w.
  - cbn [checkImages bind trigger]. rewrite exec_Vis. reflexivity.
  - cbn [checkImages forallb]. unfold found_in at 1.
    destruct (scanImages i (Images jsonImages)) as [i' found].
    destruct found; cbn [negb snd andb].
    + apply IH.
    + cbn [bind trigger]. rewrite exec_Vis. reflexivity.
Qed.

(** Once a required image is not found, the images after it are not
    looked at. *)
Lemma checkImages_short_circuit : forall pre i post jsonImages (w : W),
  found_in jsonImages i = false ->
  exec host (checkImages (pre ++ i :: post) jsonImages) w
  = exec host (checkImages (pre ++ [i]) jsonImages) w.
Proof.
  induction pre as [|p pre IH]; intros i post jsonImages w Hi.
  - cbn [app checkImages]. unfold found_in in Hi.
    destruct (scanImages i (Images jsonImages)) as [i' found].
    cbn [snd] in Hi. subst found. reflexivity.
  - cbn [app checkImages].
    destruct (scanImages p (Images jsonImages)) as [p' found].
    destruct found; cbn [negb]; [apply IH; exact Hi|reflexivity].
Qed.

Lemma portoImagesPreloaded_exec : forall images (w : W),
  exec host (portoImagesPreloaded images) w
  = let res := answer host inventory w in
    let w1 := after host inventory w in
    let o :=
      match res with
      | inr _ => {| value := false; final := w1; trace := [] |}
      | inl rr =>
          match json_Unmarshal (Stdout rr) with
          | None =>
              exec host
                (trigger (klog Error
                   "failed to unmarshal images, will assume images are not preloaded"
                   []) ;; Ret false) w1
          | Some jsonImages => exec host (checkImages images jsonImages) w1
          end
      end in
    {| value := value o; final := final o;
       trace := Ev inventory res :: trace o |}.
Proof.
  intros. unfold portoImagesPreloaded. cbn [bind trigger].
  rewrite exec_Vis. fold inventory. cbv zeta.
  destruct (answer host inventory w) as [rr|err]; [|reflexivity].
  destruct (json_Unmarshal (Stdout rr)); reflexivity.
Qed.

Lemma portoImagesPreloaded_value : forall images (w : W),
  value (exec host (portoImagesPreloaded images) w)
  = match answer host inventory w with
    | inr _ => false
    | inl rr =>
        match json_Unmarshal (Stdout rr) with
        | None => false
        | Some jsonImages => forallb (found_in jsonImages) images
        end
    end.
Proof.
  intros. rewrite portoImagesPreloaded_exec. cbv zeta. cbn [value].
  destruct (answer host inventory w) as [rr|err]; [|reflexivity].
  destruct (json_Unmarshal (Stdout rr)).
  - apply checkImages_value.
  - cbn [bind trigger]. rewrite exec_Vis. reflexivity.
Qed.

(** C6: when the inventory command fails, or its output does not decode
    as the inventory, the preload check answers false, whatever the
    required images. *)
Theorem portoImagesPreloaded_conservative :
  forall (w : W) images,
    (exists err, answer host inventory w = inr err)
    \/ (exists rr, answer host inventory w = inl rr
                   /\ json_Unmarshal (Stdout rr) = None) ->
    value (exec host (portoImagesPreloaded images) w) = false.
Proof.
  intros w images H. rewrite portoImagesPreloaded_value.
  destruct H as [[err ->]|(rr & -> & ->)]; reflexivity.
Qed.

(** C7: for every inventory the command yields, the preload check of
    the empty list of required images answers true. *)
Theorem portoImagesPreloaded_nil :
  forall (w : W) rr jsonImages,
    answer host inventory w = inl rr ->
    json_Unmarshal (Stdout rr) = Some jsonImages ->
    value (exec host (portoImagesPreloaded []) w) = true.
Proof.
  intros w rr jsonImages Hrr Hjs.
  rewrite portoImagesPreloaded_value, Hrr, Hjs. reflexivity.
Qed.

End Matcher.

(** ** The preload check for an idempotent normalization *)

Section Normalized.
Context {pkg : Package}.
Hypothesis norm_idem : forall s,
  addRepoTagToImageName (addRepoTagToImageName s) = addRepoTagToImageName s.

Lemma scanRepoTags_In : forall tags i,
  (snd (scanRepoTags i tags) = true <-> In (addRepoTagToImageName i) tags)
  /\ addRepoTagToImageName (fst (scanRepoTags i tags))
     = addRepoTagToImageName i.
Proof.
  induction tags as [|rt tags IH]; intros i; cbn [scanRepoTags].
  - split; [split; [discriminate|intros []]|reflexivity].
  - destruct (String.eqb_spec (addRepoTagToImageName i) rt) as [E|NE].
    + cbn [fst snd]. split; [|apply norm_idem].
      split; [intros _; left; symmetry; exact E|reflexivity].
    + destruct (IH (addRepoTagToImageName i)) as [Hs Hf].
      rewrite norm_idem in Hs, Hf. split; [|exact Hf].
      rewrite Hs. cbn [In]. split; [intros H; right; exact H|].
      intros [H|H]; [symmetry in H; contradiction|exact H].
Qed.

Lemma scanImages_present : forall imgs i,
  (snd (scanImages i imgs) = true
   <-> exists ji, In ji imgs /\ In (addRepoTagToImageName i) (RepoTags ji))
  /\ addRepoTagToImageName (fst (scanImages i imgs))
     = addRepoTagToImageName i.
Proof.
  induction imgs as [|ji imgs IH]; intros i; cbn [scanImages].
  - split; [split; [discriminate|intros (ji & [] & _)]|reflexivity].
  - destruct (scanRepoTags_In (RepoTags ji) i) as [Hs Hf].
    destruct (scanRepoTags i (RepoTags ji)) as [i1 found].
    cbn [fst snd] in Hs, Hf. destruct found.
    + cbn [fst snd]. split; [|exact Hf].
      split; [intros _|reflexivity].
      exists ji. split; [left; reflexivity|apply Hs; reflexivity].
    + destruct (IH i1) as [Hs1 Hf1]. rewrite Hf in Hs1, Hf1.
      split; [|exact Hf1]. rewrite Hs1. split.
      * intros (ji' & Hin & Htag). exists ji'. split; [right|]; assumption.
      * intros (ji' & [<-|Hin] & Htag).
        -- apply Hs in Htag. discriminate.
        -- exists ji'. split; assumption.
Qed.

Lemma found_in_present : forall jsonImages i,
  found_in jsonImages i = true
  <-> present jsonImages (addRepoTagToImageName i).
Proof.
  intros. unfold found_in, present. apply scanImages_present.
Qed.

Context {W : Type} (host : forall c : call, W -> ret c * W).

(** C1, amended: with the inventory retrieved and decoded, the preload
    check answers true exactly when every required name, normalized, is
    equal to a tag of some inventory entry as the inventory lists it
    (the tags themselves are not normalized); and a required name that
    is not found ends the check with false, the names after it
    unread. *)
Theorem portoImagesPreloaded_all_present :
  forall (w : W) images rr jsonImages,
    answer host inventory w = inl rr ->
    json_Unmarshal (Stdout rr) = Some jsonImages ->
    (value (exec host (portoImagesPreloaded images) w) = true
     <-> Forall (fun i => present jsonImages (addRepoTagToImageName i))
                images)
    /\ (forall pre i post,
           images = pre ++ i :: post ->
           ~ present jsonImages (addRepoTagToImageName i) ->
           value (exec host (portoImagesPreloaded images) w) = false
           /\ exec host (portoImagesPreloaded images) w
              = exec host (portoImagesPreloaded (pre ++ [i])) w).
Proof.
  intros w images rr jsonImages Hrr Hjs. split.
  - rewrite portoImagesPreloaded_value, Hrr, Hjs.
    rewrite forallb_forall, Forall_forall.
    split; intros H i Hi; apply found_in_present, H, Hi.
  - intros pre i post -> Hi.
    assert (Hf : found_in jsonImages i = false).
    { destruct (found_in jsonImages i) eqn:E; [|reflexivity].
      apply found_in_present in E. contradiction. }
    split.
    + rewrite portoImagesPreloaded_value, Hrr, Hjs.
      rewrite forallb_app. cbn [forallb]. rewrite Hf.
      now rewrite andb_false_r.
    + rewrite !portoImagesPreloaded_exec. cbv zeta. rewrite Hrr, Hjs.
      rewrite checkImages_short_circuit by exact Hf. reflexivity.
Qed.

End Normalized.

(** ** Enable *)

Lemma pause_pull_cons : forall ev tr v,
  fatal_step ev = false -> is_pull (call_of ev) = false ->
  pause_pull_or_abort tr v -> pause_pull_or_abort (ev :: tr) v.
Proof.
  intros ev tr v Hf Hp [(steps & e & -> & Hs & Hn & Hv)|(Hs & Hn & Hv)].
  - left. exists (ev :: steps), e. cbn [app existsb calls map].
    rewrite Hf, Hp. repeat split; assumption.
  - right. cbn [existsb calls map]. rewrite Hf, Hp. repeat split; assumption.
Qed.

Lemma pause_pull_last : forall e,
  pause_pull_or_abort [pulled pauseImage e]
    match e with
    | Some err => Some (errors_Wrap err "pulling pause image")
    | None => None
    end.
Proof. intros e. left. exists [], e. repeat split. Qed.

Lemma pause_pull_fatal : forall ev v,
  fatal_step ev = true -> is_pull (call_of ev) = false -> v <> None ->
  pause_pull_or_abort [ev] v.
Proof.
  intros ev v Hf Hp Hv. right. cbn [existsb calls map].
  rewrite Hf, Hp. repeat split; assumption.
Qed.

Section Enabling.
Context {pkg : Package}.
Context {W : Type} (host : forall c : call, W -> ret c * W).

(** A run of [Enable] in rootless mode: the two kernel gates, then what
    [Enable] does without rootless mode. *)
Lemma Enable_rootless_exec : forall (w : W) r disOthers cgroupDriver,
  exec host (Enable r disOthers cgroupDriver true) w
  = let w1 := after host hardGate w in
    match answer host hardGate w with
    | Some err =>
        {| value :=
             Some (fmt_Errorf_w
                     "kernel >= 5.11 is required for rootless mode: %w"
                     err);
           final := w1;
           trace := [Ev hardGate (Some err)] |}
    | None =>
        let w2 := after host softGate w1 in
        let ww :=
          match answer host softGate w1 with
          | Some err =>
              ([Ev (softWarning err) tt], after host (softWarning err) w2)
          | None => ([], w2)
          end in
        let o := exec host (Enable r disOthers cgroupDriver false) (snd ww) in
        {| value := value o; final := final o;
           trace := Ev hardGate None
                      :: Ev softGate (answer host softGate w1)
                      :: fst ww ++ trace o |}
    end.
Proof.
  intros w r dis cg. cbv zeta. unfold Enable, trigger. cbv iota.
  rewrite exec_orReturn_nil.
  rewrite (exec_orReturn host (fun err => err)).
  rewrite (exec_orReturn host (fmt_Errorf_w _)).
  rewrite exec_Vis. cbv zeta. cbn [exec value final trace].
  fold hardGate.
  destruct (answer host hardGate w) as [err|]; [reflexivity|].
  rewrite exec_bind, exec_Vis. cbv zeta. cbn [exec value final trace].
  fold softGate.
  destruct (answer host softGate (after host hardGate w)) as [err|].
  - rewrite exec_bind, exec_Vis. cbv zeta.
    cbn [exec value final trace]. fold (softWarning err).
    destruct (answer host (softWarning err) _). reflexivity.
  - cbn [exec value final trace app fst snd]. reflexivity.
Qed.

(** A run of [Enable] without rootless mode: it ends as
    [pause_pull_or_abort] says, and no kernel gate is called. *)
Lemma Enable_plain_shape : forall (w : W) r disOthers cgroupDriver,
  let o := exec host (Enable r disOthers cgroupDriver false) w in
  pause_pull_or_abort (trace o) (value o)
  /\ existsb is_gate (calls (trace o)) = false.
Proof.
  intros w r dis cg.
  unfold Enable, generatePortoConfig, PullImage, orReturn, trigger.
  destruct dis; cbn [bind exec];
  repeat match goal with
    | |- context [host ?c ?w] =>
        let a := fresh "a" in
        let w' := fresh "w" in
        destruct (host c w) as [a w']; cbn [ret] in a; destruct a;
        cbn [bind exec value final trace]
    end.
  all: cbv zeta; cbn [value trace]; split; [|reflexivity].
  all: repeat (apply pause_pull_cons; [reflexivity|reflexivity|]).
  all: first
    [ exact (pause_pull_last None)
    | match goal with
      | |- pause_pull_or_abort [Ev (pullCRIImage _) (Some ?e)] _ =>
          exact (pause_pull_last (Some e))
      end
    | apply pause_pull_fatal; [reflexivity|reflexivity|discriminate] ].
Qed.

(** C4: in rootless mode the first call of [Enable] is the hard kernel
    gate (5.11); when it fails, [Enable] returns at once the error
    "kernel >= 5.11 is required for rootless mode" wrapping the gate's
    error, with no other call made.  When it passes, the soft gate
    (5.13) is called next; its failure only adds a warning to the log,
    and [Enable] goes on exactly as it does without rootless mode.
    Without rootless mode no kernel gate is called. *)
Theorem Enable_kernel_gates :
  forall (w : W) r disOthers cgroupDriver,
    exec host (Enable r disOthers cgroupDriver true) w
    = (let w1 := after host hardGate w in
       match answer host hardGate w with
       | Some err =>
           {| value :=
                Some (fmt_Errorf_w
                        "kernel >= 5.11 is required for rootless mode: %w"
                        err);
              final := w1;
              trace := [Ev hardGate (Some err)] |}
       | None =>
           let w2 := after host softGate w1 in
           let ww :=
             match answer host softGate w1 with
             | Some err =>
                 ([Ev (softWarning err) tt],
                  after host (softWarning err) w2)
             | None => ([], w2)
             end in
           let o :=
             exec host (Enable r disOthers cgroupDriver false) (snd ww) in
           {| value := value o; final := final o;
              trace := Ev hardGate None
                         :: Ev softGate (answer host softGate w1)
                         :: fst ww ++ trace o |}
       end)
    /\ existsb is_gate
         (calls (trace (exec host (Enable r disOthers cgroupDriver false) w)))
       = false.
Proof.
  intros. split; [apply Enable_rootless_exec|apply Enable_plain_shape].
Qed.

(** C8: whatever the arguments and the host, a run of [Enable] in which
    no earlier step fails fatally ends with the pull of the pause image
    (the only pull of the run), and [Enable] returns that pull's error
    wrapped with "pulling pause image", or nil when the pull
    succeeds; in every other run an earlier step failed, nothing was
    pulled and [Enable] returns an error. *)
Theorem Enable_pulls_pause_image :
  forall (w : W) r disOthers cgroupDriver inUserNamespace,
    let o :=
      exec host (Enable r disOthers cgroupDriver inUserNamespace) w in
    pause_pull_or_abort (trace o) (value o).
Proof.
  intros w r dis cg [|]; cbv zeta; [|apply Enable_plain_shape].
  rewrite Enable_rootless_exec. cbv zeta.
  destruct (answer host hardGate w) as [err|]; cbn [value trace].
  - apply pause_pull_fatal; [reflexivity|reflexivity|discriminate].
  - apply pause_pull_cons; [reflexivity|reflexivity|].
    apply pause_pull_cons;
      [destruct (answer host softGate _); reflexivity|reflexivity|].
    destruct (answer host softGate _) as [err|]; cbn [fst snd app].
    + apply pause_pull_cons; [reflexivity|reflexivity|].
      apply Enable_plain_shape.
    + apply Enable_plain_shape.
Qed.

End Enabling.

(** ** Preload *)

Lemma pulls_and_restarts_app : forall tr1 tr2,
  pulls_and_restarts (tr1 ++ tr2)
  = pulls_and_restarts tr1 ++ pulls_and_restarts tr2.
Proof.
  intros. unfold pulls_and_restarts, calls. rewrite map_app. apply filter_app.
Qed.

Lemma pulls_and_restarts_all_pulled : forall imageList,
  pulls_and_restarts (all_pulled imageList) = map pullCRIImage imageList.
Proof.
  induction imageList as [|img l IH]; [reflexivity|].
  change (all_pulled (img :: l)) with ([pulled img None] ++ all_pulled l).
  rewrite pulls_and_restarts_app, IH. reflexivity.
Qed.

Section Preloading.
Context {pkg : Package}.
Context {W : Type} (host : forall c : call, W -> ret c * W).

Lemma checkImages_quiet : forall images jsonImages (w : W),
  pulls_and_restarts (trace (exec host (checkImages images jsonImages) w))
  = [].
Proof.
  induction images as [|i images IH]; intros jsonImages w.
  - cbn [checkImages bind trigger]. rewrite exec_Vis. reflexivity.
  - cbn [checkImages].
    destruct (scanImages i (Images jsonImages)) as [i' found].
    destruct found; cbn [negb]; [apply IH|].
    cbn [bind trigger]. rewrite exec_Vis. reflexivity.
Qed.

(** The preload check neither pulls nor restarts. *)
Lemma portoImagesPreloaded_quiet : forall images (w : W),
  pulls_and_restarts (trace (exec host (portoImagesPreloaded images) w))
  = [].
Proof.
  intros. rewrite portoImagesPreloaded_exec. cbv zeta. cbn [trace].
  change (Ev inventory ?a :: ?t) with ([Ev inventory a] ++ t).
  rewrite pulls_and_restarts_app.
  destruct (answer host inventory w) as [rr|err]; [|reflexivity].
  destruct (json_Unmarshal (Stdout rr)).
  - rewrite checkImages_quiet. reflexivity.
  - cbn [bind trigger]. rewrite exec_Vis. reflexivity.
Qed.

(** The pull loop: every image pulled, or the images up to the first
    whose pull fails. *)
Lemma pullImages_shape : forall r imageList (w : W),
  let o := exec host (pullImages r imageList) w in
  (value o = None /\ trace o = all_pulled imageList)
  \/ (exists pre img post err,
         imageList = pre ++ img :: post
         /\ trace o = all_pulled pre ++ [pulled img (Some err)]
         /\ value o = Some (errors_Wrapf err "pulling image %q" [img])).
Proof.
  intros r. induction imageList as [|img l IH]; intros w; cbv zeta.
  - left. split; reflexivity.
  - cbn [pullImages]. rewrite exec_orReturn. unfold PullImage, trigger.
    rewrite exec_Vis. cbv zeta. cbn [exec value final trace].
    destruct (answer host (pullCRIImage img) w) as [err|].
    + right. exists [], img, l, err. repeat split.
    + destruct (IH (after host (pullCRIImage img) w))
        as [[Hv Ht]|(pre & img' & post & err & -> & Ht & Hv)].
      * left. cbn [value trace app]. rewrite Ht. split; [exact Hv|].
        reflexivity.
      * right. exists (img :: pre), img', post, err.
        cbn [value trace app]. rewrite Ht. repeat split. exact Hv.
Qed.

Lemma Preload_exec : forall (w : W) r cc imageList,
  answer host (catalog cc) w = inl imageList ->
  exec host (Preload r cc) w
  = let chk :=
      exec host (portoImagesPreloaded imageList)
        (after host (catalog cc) w) in
    let o :=
      if value chk then
        exec host
          (trigger (klog Info
                      "Images already preloaded, skipping extraction" []) ;;
           Ret None) (final chk)
      else
        exec host
          (orReturn (fun err => err) (pullImages r imageList) (Restart r))
          (final chk) in
    {| value := value o; final := final o;
       trace := Ev (catalog cc) (inl imageList) :: trace chk ++ trace o |}.
Proof.
  intros w r cc imageList Hcat. unfold Preload. cbv zeta.
  cbn [bind trigger]. rewrite exec_Vis. fold (catalog cc). cbv zeta.
  rewrite Hcat. rewrite exec_bind. cbv zeta. cbn [value final trace].
  destruct (value (exec host (portoImagesPreloaded imageList) _));
    reflexivity.
Qed.

(** C3: when the image catalog yields the required images: if the
    preload check says they are all present, [Preload] returns nil and
    its run has no pull and no restart; otherwise, after the catalog
    query and the check, it pulls the images one by one in the order of
    the list, and either every pull succeeds and one restart of the
    service follows as the last call, whose result [Preload] returns,
    or the first failing pull is the last call and [Preload] returns
    its error wrapped with the name of that image. *)
Theorem Preload_pulls_missing_images :
  forall (w : W) r cc imageList,
    answer host (catalog cc) w = inl imageList ->
    let chk :=
      exec host (portoImagesPreloaded imageList)
        (after host (catalog cc) w) in
    let o := exec host (Preload r cc) w in
    if value chk then
      value o = None /\ pulls_and_restarts (trace o) = []
    else
      exists steps,
        trace o = Ev (catalog cc) (inl imageList) :: trace chk ++ steps
        /\ pulls_and_restarts (trace o) = pulls_and_restarts steps
        /\ ((exists e,
                steps = all_pulled imageList ++ [restarted e]
                /\ pulls_and_restarts steps
                   = map pullCRIImage imageList ++ [Init_Restart "porto"]
                /\ value o = e)
            \/ (exists pre img post err,
                   imageList = pre ++ img :: post
                   /\ steps = all_pulled pre ++ [pulled img (Some err)]
                   /\ pulls_and_restarts steps
                      = map pullCRIImage (pre ++ [img])
                   /\ value o
                      = Some (errors_Wrapf err "pulling image %q" [img]))).
Proof.
  intros w r cc imageList Hcat. cbv zeta.
  rewrite (@Preload_exec w r cc imageList Hcat). cbv zeta.
  pose proof (portoImagesPreloaded_quiet imageList
                (after host (catalog cc) w)) as Hq.
  set (chk := exec host (portoImagesPreloaded imageList)
                (after host (catalog cc) w)) in *.
  assert (Hpre : forall steps,
    pulls_and_restarts
      (Ev (catalog cc) (inl imageList) :: trace chk ++ steps)
    = pulls_and_restarts steps).
  { intros steps.
    change (Ev (catalog cc) (inl imageList) :: trace chk ++ steps)
      with ([Ev (catalog cc) (inl imageList)] ++ trace chk ++ steps).
    rewrite !pulls_and_restarts_app, Hq. reflexivity. }
  destruct (value chk); cbn [value trace].
  - cbn [bind trigger]. rewrite exec_Vis. cbv zeta. cbn [exec value trace].
    split; [reflexivity|]. rewrite Hpre. reflexivity.
  - rewrite exec_orReturn. cbv zeta.
    destruct (pullImages_shape r imageList (final chk))
      as [[Hv Ht]|(pre & img & post & err & Hl & Ht & Hv)].
    + rewrite Hv, Ht. unfold Restart, trigger. rewrite exec_Vis. cbv zeta.
      cbn [exec value trace].
      eexists. split; [reflexivity|]. split; [apply Hpre|].
      left. eexists. split; [reflexivity|]. split; [|reflexivity].
      rewrite pulls_and_restarts_app, pulls_and_restarts_all_pulled.
      reflexivity.
    + rewrite Hv, Ht. cbn [value trace].
      eexists. split; [reflexivity|]. split; [apply Hpre|].
      right. exists pre, img, post, err.
      split; [exact Hl|]. split; [reflexivity|]. split; [|reflexivity].
      rewrite pulls_and_restarts_app, pulls_and_restarts_all_pulled.
      rewrite map_app. reflexivity.
Qed.

End Preloading.

(** ** The adapter on concrete hosts *)

Lemma defaultRepoTag_idem : forall s,
  defaultRepoTag (defaultRepoTag s) = defaultRepoTag s.
Proof.
  intros s. unfold defaultRepoTag.
  destruct (Strings.Contains s ".io/") eqn:E.
  - rewrite E. reflexivity.
  - replace (Strings.Contains ("docker.io/" ++ s) ".io/") with true;
      [reflexivity|].
    symmetry. apply Contains_occurs. exists "docker", s. reflexivity.
Qed.

(** A tag the inventory lists without its registry is not found when the
    normalization adds one to the required name. *)
Lemma found_in_raw_tag : forall (pkg : Package) id s,
  addRepoTagToImageName s <> s ->
  found_in {| Images := [ {| ID := id; RepoTags := [s] |} ] |} s = false.
Proof.
  intros pkg id s H. unfold found_in. cbn.
  destruct (String.eqb_spec (addRepoTagToImageName s) s);
    [contradiction|reflexivity].
Qed.

(** C1, as stated, fails: the inventory lists the tag "pause:3.7"; the
    required name "pause:3.7" and that tag are equal once both are
    normalized, yet the check answers false. *)
Lemma portoImagesPreloaded_raw_tag_counterexample :
  ~ (value (exec (scripted healthy)
              (@portoImagesPreloaded demoPackage ["pause:3.7"]) [])
     = true
     <-> present_both_normalized defaultRepoTag demoInventory ["pause:3.7"]).
Proof.
  intros [_ H].
  assert (Hc : present_both_normalized defaultRepoTag demoInventory
                 ["pause:3.7"]).
  { constructor; [|constructor].
    exists {| ID := "sha256:beae173c";
              RepoTags := ["docker.io/library/busybox:latest"; "pause:3.7"] |},
           "pause:3.7".
    split; [right; left; reflexivity|].
    split; [right; left; reflexivity|reflexivity]. }
  apply H in Hc. vm_compute in Hc. discriminate Hc.
Qed.

Lemma portoImagesPreloaded_all_present_witness :
  let images := ["registry.k8s.io/pause:3.7"; "library/busybox:latest"] in
  let run := exec (scripted healthy)
               (@portoImagesPreloaded demoPackage images) [] in
  (value run = true
   <-> Forall (fun i => present demoInventory (defaultRepoTag i)) images)
  /\ (forall pre i post,
         images = pre ++ i :: post ->
         ~ present demoInventory (defaultRepoTag i) ->
         value run = false
         /\ run = exec (scripted healthy)
                    (@portoImagesPreloaded demoPackage (pre ++ [i])) []).
Proof.
  exact (@portoImagesPreloaded_all_present demoPackage defaultRepoTag_idem
           (list call) (scripted healthy) []
           ["registry.k8s.io/pause:3.7"; "library/busybox:latest"]
           {| Stdout := "<inventory>"; Stderr := "" |} demoInventory
           eq_refl eq_refl).
Defined.

Lemma Preload_pulls_missing_images_witness :
  let o := exec (scripted healthy) (@Preload demoPackage demoPorto demoCluster)
             [] in
  value o = None /\ pulls_and_restarts (trace o) = [].
Proof.
  exact (@Preload_pulls_missing_images demoPackage (list call)
           (scripted healthy) [] demoPorto demoCluster
           ["registry.k8s.io/pause:3.7"] eq_refl).
Defined.

Lemma portoImagesPreloaded_conservative_witness :
  value (exec (scripted unreachable)
           (@portoImagesPreloaded demoPackage ["registry.k8s.io/pause:3.7"])
           []) = false
  /\ value (exec (scripted garbled)
              (@portoImagesPreloaded demoPackage ["registry.k8s.io/pause:3.7"])
              []) = false.
Proof.
  split.
  - apply (@portoImagesPreloaded_conservative demoPackage (list call)
             (scripted unreachable) [] ["registry.k8s.io/pause:3.7"]).
    left. exists (errors_New "ssh: connection refused"). reflexivity.
  - apply (@portoImagesPreloaded_conservative demoPackage (list call)
             (scripted garbled) [] ["registry.k8s.io/pause:3.7"]).
    right. exists {| Stdout := "Usage: crictl"; Stderr := "" |}.
    split; reflexivity.
Defined.

Lemma portoImagesPreloaded_nil_witness :
  value (exec (scripted healthy) (@portoImagesPreloaded demoPackage []) [])
  = true.
Proof.
  exact (@portoImagesPreloaded_nil demoPackage (list call) (scripted healthy)
           [] {| Stdout := "<inventory>"; Stderr := "" |} demoInventory
           eq_refl eq_refl).
Defined.

Lemma ImageExists_substrings_witness :
  let out := "registry.k8s.io/pause 3.7 221177c6" in
  let run name sha :=
    value (exec (scripted healthy)
             (@ImageExists demoPackage demoPorto name sha) []) in
  (run "pause" "221177c6" = true
   <-> Strings.occurs_in "pause" out
       /\ ("221177c6" <> "" -> Strings.occurs_in "221177c6" out))
  /\ ("221177c6" = "" ->
      (run "pause" "221177c6" = true <-> Strings.occurs_in "pause" out)).
Proof.
  exact (@ImageExists_substrings demoPackage (list call) (scripted healthy)
           [] demoPorto "pause" "221177c6"
           {| Stdout := "registry.k8s.io/pause 3.7 221177c6"; Stderr := "" |}
           eq_refl).
Defined.

Lemma ImageExists_listing_fails_witness :
  value (exec (scripted unreachable)
           (@ImageExists demoPackage demoPorto "pause" "") []) = false.
Proof.
  exact (@ImageExists_listing_fails demoPackage (list call)
           (scripted unreachable) [] demoPorto "pause" ""
           (errors_New "ssh: connection refused") eq_refl).
Defined.

(** The scenarios of the specification. *)

Example Preload_already_present :
  calls (trace (exec (scripted healthy)
                  (@Preload demoPackage demoPorto demoCluster) []))
  = [catalog demoCluster; inventory;
     klog Info "all images are preloaded for porto runtime." [];
     klog Info "Images already preloaded, skipping extraction" []].
Proof. reflexivity. Qed.

Example Preload_one_missing :
  pulls_and_restarts
    (trace (exec (scripted cold) (@Preload demoPackage demoPorto demoCluster)
              []))
  = [pullCRIImage "img:v3"; Init_Restart "porto"].
Proof. reflexivity. Qed.

Example ImageExists_name_only :
  value (exec (scripted healthy)
           (@ImageExists demoPackage demoPorto "pause" "") []) = true
  /\ value (exec (scripted healthy)
              (@ImageExists demoPackage demoPorto "etcd" "") []) = false.
Proof. split; reflexivity. Qed.

Example Enable_old_kernel_aborts :
  exec (scripted (oldKernel true))
    (@Enable demoPorto true "systemd" true) []
  = {| value :=
         Some (fmt_Errorf_w "kernel >= 5.11 is required for rootless mode: %w"
                 (errors_New "kernel version is too old"));
       final := [hardGate];
       trace := [Ev hardGate (Some (errors_New "kernel version is too old"))] |}.
Proof. reflexivity. Qed.

Example Enable_soft_gate_warns :
  let o := exec (scripted (oldKernel false))
             (@Enable demoPorto false "systemd" true) [] in
  value o = None
  /\ calls (trace o)
     = [hardGate; softGate;
        softWarning (errors_New "kernel version is too old");
        populateCRIConfig "/run/portoshim.sock"; enableIPForwarding;
        Init_Restart "porto"; pullCRIImage pauseImage].
Proof. split; reflexivity. Qed.

Example parsePortoVersion_doc_line :
  parsePortoVersion "version: 5.3.30-alpha.7  /usr/sbin/portod"
  = inl "5.3.30-alpha.7".
Proof. reflexivity. Qed.

Example parsePortoVersion_no_version :
  parsePortoVersion "portod: command not found"
  = inr (fmt_Errorf "unknown version: %q" ["portod: command not found"]).
Proof. reflexivity. Qed.

(* ===================================================================== *)
(** * More of the adapter *)

(** ** The version parser on every line *)

Lemma nonspace_split : forall s,
  s = (nonspacePrefix s ++ nonspaceRest s)%string.
Proof.
  induction s as [|c s IH]; [reflexivity|].
  cbn [nonspacePrefix nonspaceRest]. destruct (Regexp.nonspace c).
  - cbn [append]. f_equal. exact IH.
  - reflexivity.
Qed.

Lemma nonspacePrefix_nonspace : forall s c,
  In c (list_ascii_of_string (nonspacePrefix s)) -> Regexp.nonspace c = true.
Proof.
  induction s as [|x s IH]; intros c H; [destruct H|].
  cbn [nonspacePrefix] in H. destruct (Regexp.nonspace x) eqn:E.
  - destruct H as [<-|H]; [exact E|exact (IH c H)].
  - destruct H.
Qed.

Lemma nonspaceRest_space : forall s,
  nonspaceRest s = ""
  \/ exists c b, nonspaceRest s = String c b /\ Regexp.space c = true.
Proof.
  induction s as [|x s IH]; [left; reflexivity|].
  cbn [nonspaceRest]. destruct (Regexp.nonspace x) eqn:E; [exact IH|].
  right. exists x, s. split; [reflexivity|].
  unfold Regexp.nonspace in E. now destruct (Regexp.space x).
Qed.

(** Where [firstDigitDot] finds its token. *)
Lemma firstDigitDot_found : forall s v,
  firstDigitDot s = Some v ->
  exists a d t,
    s = (a ++ String d (String "." t))%string
    /\ v = String d (String "." (nonspacePrefix t))
    /\ Regexp.digit d = true
    /\ forall a1 d' r,
         s = (a1 ++ String d' (String "." r))%string ->
         Regexp.digit d' = true ->
         String.length a <= String.length a1.
Proof.
  induction s as [|x s IH]; intros v H; [discriminate|].
  destruct s as [|c t]; [discriminate|].
  cbn [firstDigitDot] in H.
  destruct (Regexp.digit x && Ascii.eqb c ".") eqn:E.
  - apply andb_true_iff in E. destruct E as [Ex Ec].
    apply Ascii.eqb_eq in Ec. subst c. inversion H; subst v.
    exists "", x, t. repeat split; try assumption. intros; cbn; lia.
  - destruct (IH v H) as (a & d & t' & Hs & Hv & Hd & Hleft).
    exists (String x a), d, t'. repeat split; try assumption.
    + cbn [append]. f_equal. exact Hs.
    + intros a1 d' r Ha1 Hd'. destruct a1 as [|y a1].
      * cbn [append] in Ha1. inversion Ha1; subst.
        rewrite Hd' in E. cbn in E. discriminate.
      * cbn [append] in Ha1. inversion Ha1; subst y.
        cbn [String.length]. apply le_n_S. eapply Hleft; eassumption.
Qed.

Lemma firstDigitDot_none : forall s,
  firstDigitDot s = None ->
  forall a d r,
    s = (a ++ String d (String "." r))%string -> Regexp.digit d = false.
Proof.
  induction s as [|x s IH]; intros H a d r Hs.
  - destruct a; discriminate.
  - destruct s as [|c t].
    + destruct a as [|y [|z a]]; discriminate.
    + cbn [firstDigitDot] in H.
      destruct (Regexp.digit x && Ascii.eqb c ".") eqn:E; [discriminate|].
      destruct a as [|y a].
      * cbn [append] in Hs. inversion Hs; subst.
        cbn in E. now rewrite andb_true_r in E.
      * cbn [append] in Hs. inversion Hs; subst y.
        eapply IH; eassumption.
Qed.

Lemma firstDigitDot_has_digit_dot : forall s,
  (exists v, firstDigitDot s = Some v) <-> has_digit_dot s.
Proof.
  intros s. split.
  - intros [v H]. destruct (firstDigitDot_found _ H)
      as (a & d & t & Hs & _ & Hd & _).
    exists d. split; [exact Hd|]. exists a, t. exact Hs.
  - intros (d & Hd & a & b & Hs).
    destruct (firstDigitDot s) as [v|] eqn:E; [exists v; reflexivity|].
    cbn [append] in Hs. rewrite (firstDigitDot_none E _ _ _ Hs) in Hd.
    discriminate.
Qed.

(** X1: [parsePortoVersion] returns a version exactly for the lines that
    have a digit immediately followed by a dot; for every other line, and
    only for those, it returns the error "unknown version" carrying the
    whole line. *)
Theorem parsePortoVersion_accepts_digit_dot : forall line,
  ((exists v, parsePortoVersion line = inl v) <-> has_digit_dot line)
  /\ (parsePortoVersion line = inr (fmt_Errorf "unknown version: %q" [line])
      <-> ~ has_digit_dot line).
Proof.
  intros line. rewrite parsePortoVersion_scan.
  rewrite <- firstDigitDot_has_digit_dot.
  destruct (firstDigitDot line) as [v|]; split; split.
  - intros _. exists v. reflexivity.
  - intros _. exists v. reflexivity.
  - discriminate.
  - intros H. exfalso. apply H. exists v. reflexivity.
  - intros [v H]. discriminate.
  - intros [v H]. discriminate.
  - intros _ [v H]. discriminate.
  - reflexivity.
Qed.

(** X2: a version [parsePortoVersion] returns is a piece of the line: it
    starts at the leftmost digit that a dot follows, begins with that
    digit and the dot, has no white space in it, and ends where the line
    ends or the next white space stands. *)
Theorem parsePortoVersion_token : forall line v,
  parsePortoVersion line = inl v ->
  exists a d t b,
    line = (a ++ v ++ b)%string
    /\ v = String d (String "." t)
    /\ Regexp.digit d = true
    /\ (forall c, In c (list_ascii_of_string t) -> Regexp.nonspace c = true)
    /\ (b = "" \/ exists c b', b = String c b' /\ Regexp.space c = true)
    /\ (forall a1 d' r,
           line = (a1 ++ String d' (String "." r))%string ->
           Regexp.digit d' = true ->
           String.length a <= String.length a1).
Proof.
  intros line v H. rewrite parsePortoVersion_scan in H.
  destruct (firstDigitDot line) as [v'|] eqn:E; [|discriminate].
  inversion H; subst v'.
  destruct (firstDigitDot_found _ E) as (a & d & t & Hs & Hv & Hd & Hleft).
  exists a, d, (nonspacePrefix t), (nonspaceRest t).
  split; [|split; [exact Hv|split; [exact Hd|split; [|split]]]].
  - rewrite Hv. cbn [append]. rewrite <- nonspace_split. exact Hs.
  - apply nonspacePrefix_nonspace.
  - apply nonspaceRest_space.
  - exact Hleft.
Qed.

Lemma parsePortoVersion_token_witness :
  exists a d t b,
    "running: 5.3.30-alpha.7  /usr/sbin/portod"
    = (a ++ "5.3.30-alpha.7" ++ b)%string
    /\ "5.3.30-alpha.7" = String d (String "." t)
    /\ Regexp.digit d = true
    /\ (forall c, In c (list_ascii_of_string t) -> Regexp.nonspace c = true)
    /\ (b = "" \/ exists c b', b = String c b' /\ Regexp.space c = true)
    /\ (forall a1 d' r,
           "running: 5.3.30-alpha.7  /usr/sbin/portod"
           = (a1 ++ String d' (String "." r))%string ->
           Regexp.digit d' = true ->
           String.length a <= String.length a1).
Proof.
  exact (@parsePortoVersion_token
           "running: 5.3.30-alpha.7  /usr/sbin/portod" "5.3.30-alpha.7"
           eq_refl).
Defined.

(** ** Version and Enable on every host *)

Lemma string_app_assoc : forall a b c : string,
  ((a ++ b) ++ c = a ++ (b ++ c))%string.
Proof.
  induction a as [|x a IH]; intros b c; [reflexivity|].
  cbn [append]. f_equal. apply IH.
Qed.

Section AdapterRuns.
Context {pkg : Package}.
Context {W : Type} (host : forall c : call, W -> ret c * W).

(** X3: [Version] makes one call, the command [portod version]; it
    returns the runner's error wrapped with "porto check version" when
    the command fails and the parse of the standard output otherwise, so
    it yields a version exactly when the command succeeds and its
    standard output has a digit followed by a dot. *)
Theorem Version_runs_portod_version : forall (w : W) r,
  let o := exec host (Version r) w in
  trace o = [Ev versionQuery (answer host versionQuery w)]
  /\ value o
     = match answer host versionQuery w with
       | inr err => inr (errors_Wrapf err "porto check version" [])
       | inl rr => parsePortoVersion (Stdout rr)
       end
  /\ ((exists v, value o = inl v)
      <-> exists rr, answer host versionQuery w = inl rr
                     /\ has_digit_dot (Stdout rr)).
Proof.
  intros w r. cbv zeta. unfold Version. cbn [bind trigger].
  rewrite exec_Vis. fold versionQuery. cbv zeta.
  destruct (answer host versionQuery w) as [rr|err].
  - pose proof (parsePortoVersion_scan (Stdout rr)) as Hscan.
    pose proof (firstDigitDot_has_digit_dot (Stdout rr)) as Hdd.
    destruct (parsePortoVersion (Stdout rr)) as [v|e] eqn:E;
      cbn [exec value trace]; (split; [reflexivity|split; [reflexivity|]]).
    + split; [intros _|intros _; exists v; reflexivity].
      exists rr. split; [reflexivity|]. apply Hdd.
      destruct (firstDigitDot (Stdout rr)) as [v'|];
        [exists v'; reflexivity|discriminate].
    + split; [intros [v H]; discriminate|].
      intros (rr' & Hrr & Hh). inversion Hrr; subst rr'.
      apply Hdd in Hh. destruct Hh as [v Hv]. rewrite Hv in Hscan.
      discriminate.
  - cbn [exec value trace]. split; [reflexivity|split; [reflexivity|]].
    split; [intros [v H]; discriminate|intros (rr & H & _); discriminate].
Qed.

(** X4: without rootless mode, [Enable] asked to disable the other
    runtimes first calls [disableOthers]; a failure of that call only
    adds a warning to the log, and either way [Enable] then runs exactly
    as it does when not asked to disable them. *)
Theorem Enable_disableOthers_best_effort : forall (w : W) r cgroupDriver,
  let ans := answer host disableOthers w in
  let w1 := after host disableOthers w in
  let ww :=
    match ans with
    | Some err =>
        ([Ev (disableWarning err) tt], after host (disableWarning err) w1)
    | None => ([], w1)
    end in
  let o := exec host (Enable r false cgroupDriver false) (snd ww) in
  exec host (Enable r true cgroupDriver false) w
  = {| value := value o; final := final o;
       trace := Ev disableOthers ans :: fst ww ++ trace o |}.
Proof.
  intros w r cg. cbv zeta.
  unfold answer, after, disableWarning, Enable, generatePortoConfig,
    PullImage, orReturn, trigger.
  cbn [bind exec];
  repeat match goal with
    | |- context [host ?c ?w] =>
        let a := fresh "a" in
        let w' := fresh "w" in
        destruct (host c w) as [a w']; cbn [ret] in a; destruct a;
        cbn [bind exec value final trace fst snd app]
    end.
  all: reflexivity.
Qed.

(** X5: in every run of [Enable] no call follows a failed hard kernel
    gate, a failed CRI configuration, a failed IP-forwarding step, a
    failed restart or a failed pull: such a failure is the last call. *)
Theorem Enable_stops_at_failure :
  forall (w : W) r disOthers cgroupDriver inUserNamespace,
    existsb ends_run
      (removelast
         (trace (exec host (Enable r disOthers cgroupDriver inUserNamespace)
                   w)))
    = false.
Proof.
  intros w r dis cg ns.
  unfold Enable, generatePortoConfig, PullImage, orReturn, trigger.
  destruct ns, dis; cbn [bind exec];
  repeat match goal with
    | |- context [host ?c ?w] =>
        let a := fresh "a" in
        let w' := fresh "w" in
        destruct (host c w) as [a w']; cbn [ret] in a; destruct a;
        cbn [bind exec value final trace]
    end.
  all: reflexivity.
Qed.

(** X6: in every run of [Enable] the calls that configure CRI, enable IP
    forwarding, restart the service and pull the pause image are made at
    most once each and in that order, the CRI configuration gets the
    socket path of the runtime, which is never empty, and [Enable]
    returns nil exactly when all four were made and nothing that ends a
    run failed. *)
Theorem Enable_steps_in_order :
  forall (w : W) r disOthers cgroupDriver inUserNamespace,
    let o := exec host (Enable r disOthers cgroupDriver inUserNamespace) w in
    let steps := filter is_step (calls (trace o)) in
    SocketPath r <> ""
    /\ (exists n, steps = firstn n (EnableSteps r))
    /\ (value o = None
        <-> steps = EnableSteps r /\ existsb ends_run (trace o) = false).
Proof.
  intros w r dis cg ns. cbv zeta. split.
  { unfold SocketPath. destruct (String.eqb_spec (Socket r) "") as [E|E];
      cbn [negb]; [discriminate|exact E]. }
  unfold EnableSteps.
  unfold Enable, generatePortoConfig, PullImage, orReturn, trigger.
  destruct ns, dis; cbn [bind exec];
  repeat match goal with
    | |- context [host ?c ?w] =>
        let a := fresh "a" in
        let w' := fresh "w" in
        destruct (host c w) as [a w']; cbn [ret] in a; destruct a;
        cbn [bind exec value final trace]
    end.
  all: cbn [value trace calls map call_of filter is_step].
  all: split;
    [ first [ exists 0; reflexivity | exists 1; reflexivity
            | exists 2; reflexivity | exists 3; reflexivity
            | exists 4; reflexivity ]
    | split;
      [ first [ discriminate | intros _; split; reflexivity ]
      | first [ reflexivity
              | intros [H1 H2]; first [discriminate H1|discriminate H2] ] ] ].
Qed.

(** X7: whatever the listing prints, [ImageExists] with the empty name
    and the empty sha is true as soon as the listing command succeeds,
    and only then. *)
Theorem ImageExists_empty_name : forall (w : W) r,
  value (exec host (ImageExists r "" "") w) = true
  <-> exists rr,
        answer host listing (after host (checking "" "") w) = inl rr.
Proof.
  intros w r. rewrite ImageExists_value.
  destruct (answer host listing (after host (checking "" "") w))
    as [rr|err].
  - rewrite Contains_unfold.
    replace (String.prefix "" (Output rr)) with true
      by (destruct (Output rr); reflexivity).
    split; [intros _; exists rr|]; reflexivity.
  - split; [discriminate|intros [rr H]; discriminate].
Qed.

(** X8: the existence check is by substring: against the same listing
    output, when [ImageExists] is true for a name it is true for every
    name that occurs in that one, the sha being the same. *)
Theorem ImageExists_substring_of_name :
  forall (w w' : W) r name name' sha rr,
    answer host listing (after host (checking name sha) w) = inl rr ->
    answer host listing (after host (checking name' sha) w') = inl rr ->
    Strings.occurs_in name' name ->
    value (exec host (ImageExists r name sha) w) = true ->
    value (exec host (ImageExists r name' sha) w') = true.
Proof.
  intros w w' r name name' sha rr Hrr Hrr' (a & b & ->).
  rewrite !ImageExists_value, Hrr, Hrr'.
  rewrite !andb_true_iff, !Contains_occurs.
  intros [(x & y & Hout) Hsha]. split; [|exact Hsha].
  exists (x ++ a)%string, (b ++ y)%string. rewrite Hout.
  rewrite !string_app_assoc. reflexivity.
Qed.

End AdapterRuns.

(** ** The preload check for every normalization *)

Lemma forallb_Permutation : forall (A : Type) (f : A -> bool) l l',
  Permutation l l' -> forallb f l = forallb f l'.
Proof.
  intros A f l l' H. induction H as [|x l l' _ IH|x y l|l l' l'' _ IH1 _ IH2].
  - reflexivity.
  - cbn [forallb]. now rewrite IH.
  - cbn [forallb]. now rewrite !andb_assoc, (andb_comm (f y)).
  - now rewrite IH1.
Qed.

Section MatcherRuns.
Context {pkg : Package}.
Context {W : Type} (host : forall c : call, W -> ret c * W).

(** X9: the answer of the preload check does not depend on the order of
    the required images. *)
Theorem portoImagesPreloaded_permutation : forall (w : W) images images',
  Permutation images images' ->
  value (exec host (portoImagesPreloaded images) w)
  = value (exec host (portoImagesPreloaded images') w).
Proof.
  intros w images images' H. rewrite !portoImagesPreloaded_value.
  destruct (answer host inventory w) as [rr|err]; [|reflexivity].
  destruct (json_Unmarshal (Stdout rr)); [|reflexivity].
  apply forallb_Permutation, H.
Qed.

(** X10: against the same inventory, the check of two lists of required
    images put together is true exactly when the check of each list
    is. *)
Theorem portoImagesPreloaded_app : forall (w : W) images1 images2,
  value (exec host (portoImagesPreloaded (images1 ++ images2)) w)
  = value (exec host (portoImagesPreloaded images1) w)
    && value (exec host (portoImagesPreloaded images2) w).
Proof.
  intros w images1 images2. rewrite !portoImagesPreloaded_value.
  destruct (answer host inventory w) as [rr|err]; [|reflexivity].
  destruct (json_Unmarshal (Stdout rr)); [|reflexivity].
  apply forallb_app.
Qed.

Lemma scanRepoTags_iter : forall tags i,
  (snd (scanRepoTags i tags) = true
   <-> exists k, nth_error tags k
                 = Some (Nat.iter (S k) addRepoTagToImageName i))
  /\ (snd (scanRepoTags i tags) = false ->
      fst (scanRepoTags i tags)
      = Nat.iter (List.length tags) addRepoTagToImageName i).
Proof.
  induction tags as [|rt tags IH]; intros i; cbn [scanRepoTags].
  - split; [split; [discriminate|intros [[|k] H]; discriminate]|reflexivity].
  - destruct (String.eqb_spec (addRepoTagToImageName i) rt) as [E|NE].
    + cbn [fst snd]. split; [|discriminate].
      split; [intros _; exists 0; cbn; now rewrite E|reflexivity].
    + destruct (IH (addRepoTagToImageName i)) as [Hs Hf]. split.
      * rewrite Hs. split.
        -- intros [k Hk]. exists (S k). cbn [nth_error].
           rewrite Hk, <- Nat.iter_succ_r. reflexivity.
        -- intros [[|k] Hk].
           ++ cbn in Hk. inversion Hk. congruence.
           ++ exists k. cbn [nth_error] in Hk.
              rewrite Hk, <- Nat.iter_succ_r. reflexivity.
      * intros H. rewrite (Hf H). cbn [List.length].
        rewrite <- Nat.iter_succ_r. reflexivity.
Qed.

Lemma scanImages_iter : forall imgs i,
  (snd (scanImages i imgs) = true
   <-> exists k, nth_error (flat_map RepoTags imgs) k
                 = Some (Nat.iter (S k) addRepoTagToImageName i))
  /\ (snd (scanImages i imgs) = false ->
      fst (scanImages i imgs)
      = Nat.iter (List.length (flat_map RepoTags imgs))
          addRepoTagToImageName i).
Proof.
  induction imgs as [|ji imgs IH]; intros i; cbn [scanImages flat_map].
  - split; [split; [discriminate|intros [[|k] H]; discriminate]|reflexivity].
  - destruct (scanRepoTags_iter (RepoTags ji) i) as [Hs Hf].
    destruct (scanRepoTags i (RepoTags ji)) as [i1 found].
    cbn [fst snd] in Hs, Hf. destruct found.
    + cbn [fst snd]. split; [|discriminate]. split; [intros _|reflexivity].
      destruct (proj1 Hs eq_refl) as [k Hk]. exists k.
      rewrite nth_error_app1; [exact Hk|].
      apply nth_error_Some. rewrite Hk. discriminate.
    + specialize (Hf eq_refl). subst i1.
      set (m := List.length (RepoTags ji)) in *.
      destruct (IH (Nat.iter m addRepoTagToImageName i)) as [Hs1 Hf1].
      split.
      * rewrite Hs1. split.
        -- intros [k Hk]. exists (m + k).
           rewrite nth_error_app2 by (unfold m; lia).
           replace (m + k - List.length (RepoTags ji)) with k
             by (unfold m; lia).
           rewrite Hk. f_equal.
           replace (S (m + k)) with (S k + m) by lia.
           rewrite Nat.iter_add. reflexivity.
        -- intros [k Hk].
           destruct (Nat.lt_ge_cases k m) as [Hlt|Hge].
           ++ rewrite nth_error_app1 in Hk by exact Hlt.
              assert (Hc : false = true) by (apply Hs; exists k; exact Hk).
              discriminate Hc.
           ++ rewrite nth_error_app2 in Hk by exact Hge.
              exists (k - m). fold m in Hk. rewrite Hk. f_equal.
              rewrite <- Nat.iter_add. f_equal. lia.
      * intros H. rewrite (Hf1 H), length_app. fold m.
        rewrite <- Nat.iter_add. f_equal. lia.
Qed.

(** X11: for any normalization, idempotent or not: with the inventory
    retrieved and decoded, the preload check is true exactly when every
    required name, normalized [k+1] times, is equal to the tag at some
    position [k] of the inventory's tags taken in order (the loop
    normalizes the name once more at every tag it looks at). *)
Theorem portoImagesPreloaded_iterated :
  forall (w : W) images rr jsonImages,
    answer host inventory w = inl rr ->
    json_Unmarshal (Stdout rr) = Some jsonImages ->
    (value (exec host (portoImagesPreloaded images) w) = true
     <-> Forall
           (fun i =>
              exists k,
                nth_error (flat_map RepoTags (Images jsonImages)) k
                = Some (Nat.iter (S k) addRepoTagToImageName i))
           images).
Proof.
  intros w images rr jsonImages Hrr Hjs.
  rewrite portoImagesPreloaded_value, Hrr, Hjs.
  rewrite forallb_forall, Forall_forall.
  split; intros H i Hi; apply (scanImages_iter (Images jsonImages) i), H, Hi.
Qed.

Lemma checkImages_calls : forall images jsonImages (w : W),
  exists format args,
    calls (trace (exec host (checkImages images jsonImages) w))
    = [klog Info format args].
Proof.
  induction images as [|i images IH]; intros jsonImages w.
  - cbn [checkImages bind trigger]. rewrite exec_Vis. cbn. eauto.
  - cbn [checkImages].
    destruct (scanImages i (Images jsonImages)) as [i' found].
    destruct found; cbn [negb]; [apply IH|].
    cbn [bind trigger]. rewrite exec_Vis. cbn. eauto.
Qed.

(** X12: the preload check only reads: its first call is the inventory
    command, and it is its only command; when the command fails nothing
    else is called, and otherwise exactly one log line follows. *)
Theorem portoImagesPreloaded_single_query : forall (w : W) images,
  let o := exec host (portoImagesPreloaded images) w in
  match answer host inventory w with
  | inr _ => calls (trace o) = [inventory]
  | inl _ =>
      exists sev format args,
        calls (trace o) = [inventory; klog sev format args]
  end.
Proof.
  intros w images. cbv zeta. rewrite portoImagesPreloaded_exec. cbv zeta.
  cbn [trace]. destruct (answer host inventory w) as [rr|err];
    [|reflexivity].
  destruct (json_Unmarshal (Stdout rr)) as [jsonImages|].
  - destruct (checkImages_calls images jsonImages (after host inventory w))
      as (format & args & H).
    exists Info, format, args. unfold calls in *. cbn [map call_of].
    now rewrite H.
  - cbn [bind trigger]. rewrite exec_Vis. cbn. eauto.
Qed.

End MatcherRuns.

Section NormalizedRuns.
Context {pkg : Package}.
Hypothesis norm_idem : forall s,
  addRepoTagToImageName (addRepoTagToImageName s) = addRepoTagToImageName s.
Context {W : Type} (host : forall c : call, W -> ret c * W).

(** X13: for an idempotent normalization, a preload check that is true
    against one inventory is true against every inventory that has all
    its entries, in whatever order and with whatever entries added. *)
Theorem portoImagesPreloaded_larger_inventory :
  forall (w w' : W) images rr rr' jsonImages jsonImages',
    answer host inventory w = inl rr ->
    json_Unmarshal (Stdout rr) = Some jsonImages ->
    answer host inventory w' = inl rr' ->
    json_Unmarshal (Stdout rr') = Some jsonImages' ->
    incl (Images jsonImages) (Images jsonImages') ->
    value (exec host (portoImagesPreloaded images) w) = true ->
    value (exec host (portoImagesPreloaded images) w') = true.
Proof.
  intros w w' images rr rr' inv inv' Hrr Hjs Hrr' Hjs' Hincl.
  rewrite !portoImagesPreloaded_value, Hrr, Hjs, Hrr', Hjs'.
  rewrite !forallb_forall. intros H i Hi.
  apply (found_in_present norm_idem).
  destruct (proj1 (found_in_present norm_idem inv i) (H i Hi))
    as (ji & Hin & Htag).
  exists ji. split; [apply Hincl, Hin|exact Htag].
Qed.

End NormalizedRuns.

(** ** Preload at its edges *)

Section PreloadRuns.
Context {pkg : Package}.
Context {W : Type} (host : forall c : call, W -> ret c * W).

(** X14: when the image catalog fails, [Preload] returns the catalog's
    error wrapped with "getting images", and the catalog query is the
    only call of the run: the inventory is not read, nothing is pulled
    and the service is not restarted. *)
Theorem Preload_catalog_fails : forall (w : W) r cc err,
  answer host (catalog cc) w = inr err ->
  exec host (Preload r cc) w
  = {| value := Some (errors_Wrap err "getting images");
       final := after host (catalog cc) w;
       trace := [Ev (catalog cc) (inr err)] |}.
Proof.
  intros w r cc err H. unfold Preload. cbv zeta. cbn [bind trigger].
  rewrite exec_Vis. fold (catalog cc). cbv zeta. rewrite H. reflexivity.
Qed.

Lemma pullImages_all_succeed : forall r imageList (w : W),
  (forall img w', answer host (pullCRIImage img) w' = None) ->
  value (exec host (pullImages r imageList) w) = None
  /\ trace (exec host (pullImages r imageList) w) = all_pulled imageList.
Proof.
  intros r imageList w Hok. revert w.
  induction imageList as [|img l IH]; intros w; [split; reflexivity|].
  cbn [pullImages]. rewrite exec_orReturn. unfold PullImage, trigger.
  rewrite exec_Vis. cbv zeta. cbn [exec value final trace].
  pose proof (Hok img w) as Himg.
  destruct (answer host (pullCRIImage img) w); [discriminate|].
  destruct (IH (after host (pullCRIImage img) w)) as [Hv Ht].
  cbn [value trace app]. rewrite Hv, Ht. split; reflexivity.
Qed.

(** X15: when the catalog yields the required images, the inventory
    command fails and every pull succeeds, [Preload] pulls every required
    image, each once and in the order of the list, then restarts the
    service once and returns what the restart returns; for an empty list
    it still restarts the service. *)
Theorem Preload_pulls_all_when_inventory_unreadable :
  forall (w : W) r cc imageList err,
    answer host (catalog cc) w = inl imageList ->
    answer host inventory (after host (catalog cc) w) = inr err ->
    (forall img w', answer host (pullCRIImage img) w' = None) ->
    let o := exec host (Preload r cc) w in
    pulls_and_restarts (trace o)
    = map pullCRIImage imageList ++ [Init_Restart "porto"]
    /\ exists e, last (trace o) (restarted None) = restarted e
                 /\ value o = e.
Proof.
  intros w r cc imageList err Hcat Hinv Hok. cbv zeta.
  rewrite (@Preload_exec pkg W host w r cc imageList Hcat). cbv zeta.
  rewrite portoImagesPreloaded_exec. cbv zeta. rewrite Hinv.
  cbn [value final trace]. rewrite exec_orReturn. cbv zeta.
  destruct (pullImages_all_succeed r imageList
              (after host inventory (after host (catalog cc) w)) Hok)
    as [Hv Ht].
  rewrite Hv, Ht. unfold Restart, trigger. rewrite exec_Vis. cbv zeta.
  cbn [exec value trace app]. split.
  - change (Ev (catalog cc) (inl imageList)
              :: Ev inventory (inr err) :: ?t)
      with ([Ev (catalog cc) (inl imageList); Ev inventory (inr err)] ++ t).
    rewrite !pulls_and_restarts_app, pulls_and_restarts_all_pulled.
    reflexivity.
  - eexists. split; [|reflexivity].
    change (Ev (catalog cc) (inl imageList)
              :: Ev inventory (inr err) :: ?t ++ ?u)
      with (([Ev (catalog cc) (inl imageList); Ev inventory (inr err)] ++ t)
              ++ u).
    rewrite last_last. reflexivity.
Qed.

End PreloadRuns.

(* ===================================================================== *)
(** * The version-bump programs *)

Lemma porto_hashLine_has_version : forall old sum version arch,
  Strings.Contains (old ++ porto_version.hashLine sum version arch) version
  = true.
Proof.
  intros. apply Contains_occurs. unfold porto_version.hashLine.
  exists (old ++ "sha256 " ++ Updater.hex sum ++ "  porto_focal_")%string,
         ("_" ++ arch ++ ".tgz" ++ Updater.LF)%string.
  rewrite !string_app_assoc. reflexivity.
Qed.

Lemma portoshim_hashLine_has_version : forall old sum version arch,
  Strings.Contains (old ++ portoshim_version.hashLine sum version arch)
    version = true.
Proof.
  intros. apply Contains_occurs. unfold portoshim_version.hashLine.
  exists (old ++ "sha256 " ++ Updater.hex sum ++ "  portoshim_focal_")%string,
         ("_" ++ arch ++ ".tgz" ++ Updater.LF)%string.
  rewrite !string_app_assoc. reflexivity.
Qed.

Section UpdaterRuns.
Import Updater.
Variable sha256_Sum : string -> string.
Context {W : Type} (env : forall c : io, W -> io_ret c * W).

Lemma play_andThen : forall A B (p : script A) (f : A -> script B) w,
  play env (andThen p f) w
  = let o := play env p w in
    let o' := play env (f (returned o)) (world o) in
    {| returned := returned o'; world := world o';
       steps := steps o ++ steps o' |}.
Proof.
  intros A B p f. induction p as [a|c k IH]; intros w.
  - simpl. destruct (play env (f a) w); reflexivity.
  - simpl. destruct (env c w) as [r w1]. rewrite IH. reflexivity.
Qed.

(** Every answer of the environment and every test of the two programs,
    in turn. *)
Ltac each_run :=
  cbn [andThen play];
  repeat match goal with
    | |- context [env ?c ?w] =>
        let a := fresh "a" in
        let w' := fresh "w" in
        destruct (env c w) as [a w']; cbn [io_ret] in a; destruct a;
        cbn [andThen play returned world steps negb]
    | |- context [(StatusCode ?r =? 200)%Z] =>
        destruct (StatusCode r =? 200)%Z eqn:?;
        cbn [andThen play returned world steps negb]
    | |- context [Strings.Contains ?a ?b] =>
        destruct (Strings.Contains a b) eqn:?;
        cbn [andThen play returned world steps negb]
    end.

(** A hypothesis that some step of a concrete run shows a value. *)
Ltac which_step H :=
  cbn [map written fileRead downloaded In] in H;
  repeat (destruct H as [H|H]; [try discriminate H|]);
  try contradiction;
  try (inversion H; subst).

(** X16: both programs open the hash file for writing only after the
    archive was downloaded (with status 200, for porto), its body was
    read and the hash file was read and found without the version. *)
Theorem updateHashFile_opens_only_for_new_version :
  forall (w : W) version arch packagePath,
    (let o := play env (porto_version.updateHashFile sha256_Sum version arch
                          packagePath) w in
     existsb is_open (map io_of (steps o)) = true ->
     exists resp bytes content,
       firstn 3 (steps o)
       = [Did (http_Get (porto_version.link version arch)) (inl resp);
          Did Body_Read (inl bytes);
          Did (os_ReadFile (porto_version.hashFile packagePath))
            (inl content)]
       /\ StatusCode resp = 200%Z
       /\ Strings.Contains content version = false)
    /\ (let o := play env (portoshim_version.updateHashFile sha256_Sum version
                             arch packagePath) w in
        existsb is_open (map io_of (steps o)) = true ->
        exists resp bytes content,
          firstn 3 (steps o)
          = [Did (http_Get (portoshim_version.link version arch)) (inl resp);
             Did Body_Read (inl bytes);
             Did (os_ReadFile (portoshim_version.hashFile packagePath))
               (inl content)]
          /\ Strings.Contains content version = false).
Proof.
  intros w version arch packagePath. split; cbv zeta.
  - unfold porto_version.updateHashFile, perform. each_run.
    all: first
      [ intros H; cbn in H; discriminate H
      | intros _; eexists _, _, _;
        split; [reflexivity|split; [apply Z.eqb_eq; assumption|assumption]] ].
  - unfold portoshim_version.updateHashFile, perform. each_run.
    all: first
      [ intros H; cbn in H; discriminate H
      | intros _; eexists _, _, _; split; [reflexivity|assumption] ].
Qed.

(** X17: when the hash file that a run reads already contains the
    version, both programs return nil and neither open the file for
    writing nor write. *)
Theorem updateHashFile_known_version_is_noop :
  forall (w : W) version arch packagePath content,
    Strings.Contains content version = true ->
    (let o := play env (porto_version.updateHashFile sha256_Sum version arch
                          packagePath) w in
     In (Some content) (map fileRead (steps o)) ->
     returned o = None
     /\ existsb (fun c => is_open c || is_write c) (map io_of (steps o))
        = false)
    /\ (let o := play env (portoshim_version.updateHashFile sha256_Sum version
                             arch packagePath) w in
        In (Some content) (map fileRead (steps o)) ->
        returned o = None
        /\ existsb (fun c => is_open c || is_write c) (map io_of (steps o))
           = false).
Proof.
  intros w version arch packagePath content Hc. split; cbv zeta.
  - unfold porto_version.updateHashFile, perform. each_run.
    all: intros Hin; which_step Hin.
    all: first [congruence|split; reflexivity].
  - unfold portoshim_version.updateHashFile, perform. each_run.
    all: intros Hin; which_step Hin.
    all: first [congruence|split; reflexivity].
Qed.

(** X18: whatever a run of either program writes to the hash file, a
    file that ends with it contains the version, so that the next run
    finds the version there. *)
Theorem updateHashFile_writes_the_version :
  forall (w : W) version arch packagePath s old,
    (In (Some s)
        (map written
           (steps (play env (porto_version.updateHashFile sha256_Sum version
                               arch packagePath) w)))
     \/ In (Some s)
          (map written
             (steps (play env (portoshim_version.updateHashFile sha256_Sum
                                 version arch packagePath) w)))) ->
    Strings.Contains (old ++ s) version = true.
Proof.
  intros w version arch packagePath s old [Hin|Hin].
  - cut (exists sum, s = porto_version.hashLine sum version arch);
      [intros [sum ->]; apply porto_hashLine_has_version|].
    revert Hin. unfold porto_version.updateHashFile, perform. each_run.
    all: intros Hin; which_step Hin.
    all: eexists; reflexivity.
  - cut (exists sum, s = portoshim_version.hashLine sum version arch);
      [intros [sum ->]; apply portoshim_hashLine_has_version|].
    revert Hin. unfold portoshim_version.updateHashFile, perform. each_run.
    all: intros Hin; which_step Hin.
    all: eexists; reflexivity.
Qed.

(** X19: in every run of either program the response body is closed once
    when the download succeeded and never otherwise, the body's closing
    is then the last call, and the hash file is closed once when it was
    opened and never otherwise. *)
Theorem updateHashFile_closes_what_it_opens :
  forall (w : W) version arch packagePath,
    let closes (o : run (option failure) W) :=
      List.length (filter is_body_close (map io_of (steps o)))
      = List.length (filter got (steps o))
      /\ existsb got (steps o)
         = is_body_close (last (map io_of (steps o)) Body_Read)
      /\ List.length (filter is_file_close (map io_of (steps o)))
         = List.length (filter opened (steps o)) in
    closes (play env (porto_version.updateHashFile sha256_Sum version arch
                        packagePath) w)
    /\ closes (play env (portoshim_version.updateHashFile sha256_Sum version
                           arch packagePath) w).
Proof.
  intros w version arch packagePath. cbv zeta. split.
  - unfold porto_version.updateHashFile, perform. each_run.
    all: repeat split.
  - unfold portoshim_version.updateHashFile, perform. each_run.
    all: repeat split.
Qed.

(** X20: when the download of the porto archive answers with a status
    other than 200, [updateHashFile] returns the error "failed to
    download binary" with the status text; it closes the body and makes
    no other call, so the hash file is not even read. *)
Theorem porto_updateHashFile_checks_status :
  forall (w : W) version arch packagePath resp,
    let o := play env (porto_version.updateHashFile sha256_Sum version arch
                         packagePath) w in
    In (Some resp) (map downloaded (steps o)) ->
    StatusCode resp <> 200%Z ->
    returned o
    = Some (Errorf "failed to download binary: %s" (AStr (Status resp)))
    /\ map io_of (steps o)
       = [http_Get (porto_version.link version arch); Body_Close].
Proof.
  intros w version arch packagePath resp. cbv zeta.
  unfold porto_version.updateHashFile, perform. each_run.
  all: intros Hin Hst; which_step Hin.
  all: first
    [ split; reflexivity
    | exfalso; apply Hst; apply Z.eqb_eq; assumption ].
Qed.

(** The answer to the one call in sight. *)
Ltac answered :=
  match goal with
  | |- context [env ?c ?w'] =>
      let a := fresh "a" in
      let w2 := fresh "w2" in
      destruct (env c w') as [a w2]; cbn [io_ret] in a; destruct a
  end.

(** X21: in both programs, when the release index answers, [main] applies
    the schema with the tag and the commit of the edge release before it
    starts on the hash file, whose update for amd64 follows with the same
    tag; [main] ends with [klog.Fatalf] exactly when that update returns
    an error, the schema being applied by then.  When the release index
    fails, [klog.Fatalf] is the only other call. *)
Theorem main_applies_then_updates_hash : forall (w : W),
  let shape (repo : string) (sch : list (string * update.Item))
        (upd : string -> script (option failure)) (o : run unit W) :=
    let org := GHReleases "go-faster" repo in
    match fst (env org w) with
    | inr err =>
        steps o
        = [Did org (inr err);
           Did (klog_Fatalf "Unable to get edge version: %v" (Upstream err))
             tt]
    | inl edge =>
        let data := {| Version := update.Tag edge;
                       Commit := update.Commit edge |} in
        let h := play env (upd (update.Tag edge))
                   (snd (env (Apply sch data) (snd (env org w)))) in
        steps o
        = Did org (inl edge) :: Did (Apply sch data) tt :: steps h
          ++ match returned h with
             | Some f =>
                 [Did (klog_Fatalf "failed updating amd64 hash file: %v"
                         (Local f)) tt]
             | None => []
             end
    end in
  shape "porto" porto_version.schema
    (fun version =>
       porto_version.updateHashFile sha256_Sum version "amd64"
         "x86_64/package/porto-bin")
    (play env (porto_version.main sha256_Sum) w)
  /\ shape "portoshim" portoshim_version.schema
       (fun version =>
          portoshim_version.updateHashFile sha256_Sum version "amd64"
            "x86_64/package/portoshim-bin")
       (play env (portoshim_version.main sha256_Sum) w).
Proof.
  intros w. cbv zeta. split.
  - unfold porto_version.main, perform. cbn [andThen play].
    destruct (env (GHReleases "go-faster" "porto") w) as [[edge|err] w1];
      cbn [fst snd andThen play steps].
    + answered. cbn [fst snd steps].
      rewrite play_andThen. cbv zeta. cbn [steps]. do 2 f_equal.
      destruct (returned (play env _ _)) as [f|]; [|reflexivity].
      cbn [play]. answered. reflexivity.
    + answered. reflexivity.
  - unfold portoshim_version.main, perform. cbn [andThen play].
    destruct (env (GHReleases "go-faster" "portoshim") w) as [[edge|err] w1];
      cbn [fst snd andThen play steps].
    + answered. cbn [fst snd steps].
      rewrite play_andThen. cbv zeta. cbn [steps]. do 2 f_equal.
      destruct (returned (play env _ _)) as [f|]; [|reflexivity].
      cbn [play]. answered. reflexivity.
    + answered. reflexivity.
Qed.

End UpdaterRuns.

(* ===================================================================== *)
(** * Concrete runs of the rest of the code *)

Lemma ImageExists_substring_of_name_witness :
  value (exec (scripted healthy)
           (@ImageExists demoPackage demoPorto "pause" "") []) = true.
Proof.
  apply (@ImageExists_substring_of_name demoPackage (list call)
           (scripted healthy) [] [] demoPorto "registry.k8s.io/pause" "pause"
           "" {| Stdout := "registry.k8s.io/pause 3.7 221177c6";
                 Stderr := "" |}).
  - reflexivity.
  - reflexivity.
  - exists "registry.k8s.io/", "". reflexivity.
  - reflexivity.
Defined.

Lemma portoImagesPreloaded_permutation_witness :
  value (exec (scripted healthy)
           (@portoImagesPreloaded demoPackage
              ["registry.k8s.io/pause:3.7"; "library/busybox:latest"]) [])
  = value (exec (scripted healthy)
             (@portoImagesPreloaded demoPackage
                ["library/busybox:latest"; "registry.k8s.io/pause:3.7"]) []).
Proof.
  apply (@portoImagesPreloaded_permutation demoPackage (list call)
           (scripted healthy) []).
  apply perm_swap.
Defined.

Lemma portoImagesPreloaded_iterated_witness :
  value (exec (scripted healthy) (@portoImagesPreloaded primedPackage ["b"])
           []) = true
  <-> Forall (fun i => exists k,
                nth_error ["a"; "b''"] k
                = Some (Nat.iter (S k) (fun s => (s ++ "'")%string) i))
             ["b"].
Proof.
  exact (@portoImagesPreloaded_iterated primedPackage (list call)
           (scripted healthy) [] ["b"]
           {| Stdout := "<inventory>"; Stderr := "" |}
           {| Images := [ {| ID := "1"; RepoTags := ["a"; "b''"] |} ] |}
           eq_refl eq_refl).
Defined.

Lemma portoImagesPreloaded_larger_inventory_witness :
  value (exec growing
           (@portoImagesPreloaded shelfPackage
              ["registry.k8s.io/pause:3.7"; "library/busybox:latest"])
           [inventory]) = true.
Proof.
  apply (@portoImagesPreloaded_larger_inventory shelfPackage
           defaultRepoTag_idem (list call) growing [] [inventory]
           ["registry.k8s.io/pause:3.7"; "library/busybox:latest"]
           {| Stdout := "<inventory>"; Stderr := "" |}
           {| Stdout := "<inventory+>"; Stderr := "" |}
           demoInventory grownInventory).
  - reflexivity.
  - reflexivity.
  - reflexivity.
  - reflexivity.
  - intros ji Hji. right. exact Hji.
  - reflexivity.
Defined.

Lemma Preload_catalog_fails_witness :
  exec (scripted noCatalog) (@Preload demoPackage demoPorto demoCluster) []
  = {| value := Some (errors_Wrap
                        (errors_New "unsupported Kubernetes version")
                        "getting images");
       final := [catalog demoCluster];
       trace := [Ev (catalog demoCluster)
                   (inr (errors_New "unsupported Kubernetes version"))] |}.
Proof.
  exact (@Preload_catalog_fails demoPackage (list call) (scripted noCatalog)
           [] demoPorto demoCluster
           (errors_New "unsupported Kubernetes version") eq_refl).
Defined.

Lemma Preload_pulls_all_when_inventory_unreadable_witness :
  let o := exec (scripted offline)
             (@Preload demoPackage demoPorto demoCluster) [] in
  pulls_and_restarts (trace o)
  = [pullCRIImage "registry.k8s.io/pause:3.7";
     pullCRIImage "registry.k8s.io/etcd:3.5.6-0"; Init_Restart "porto"]
  /\ exists e, last (trace o) (restarted None) = restarted e /\ value o = e.
Proof.
  exact (@Preload_pulls_all_when_inventory_unreadable demoPackage (list call)
           (scripted offline) [] demoPorto demoCluster
           ["registry.k8s.io/pause:3.7"; "registry.k8s.io/etcd:3.5.6-0"]
           (errors_New "ssh: connection refused") eq_refl eq_refl
           (fun _ _ => eq_refl)).
Defined.

Lemma updateHashFile_opens_only_for_new_version_witness :
  (exists resp bytes content,
      firstn 3
        (Updater.steps
           (Updater.play (mirror 200 "sha256 00  porto_focal_v5.3.30_amd64.tgz")
              (porto_version.updateHashFile toyDigest "v5.3.31" "amd64"
                 "x86_64/package/porto-bin") []))
      = [Updater.Did
           (Updater.http_Get (porto_version.link "v5.3.31" "amd64"))
           (inl resp);
         Updater.Did Updater.Body_Read (inl bytes);
         Updater.Did
           (Updater.os_ReadFile
              (porto_version.hashFile "x86_64/package/porto-bin"))
           (inl content)]
      /\ Updater.StatusCode resp = 200%Z
      /\ Strings.Contains content "v5.3.31" = false)
  /\ (exists resp bytes content,
         firstn 3
           (Updater.steps
              (Updater.play (mirror 200 "")
                 (portoshim_version.updateHashFile toyDigest "1.0.12" "amd64"
                    "x86_64/package/portoshim-bin") []))
         = [Updater.Did
              (Updater.http_Get (portoshim_version.link "1.0.12" "amd64"))
              (inl resp);
            Updater.Did Updater.Body_Read (inl bytes);
            Updater.Did
              (Updater.os_ReadFile
                 (portoshim_version.hashFile "x86_64/package/portoshim-bin"))
              (inl content)]
         /\ Strings.Contains content "1.0.12" = false).
Proof.
  split.
  - apply (proj1 (@updateHashFile_opens_only_for_new_version toyDigest
                    (list Updater.io)
                    (mirror 200 "sha256 00  porto_focal_v5.3.30_amd64.tgz")
                    [] "v5.3.31" "amd64" "x86_64/package/porto-bin")).
    reflexivity.
  - apply (proj2 (@updateHashFile_opens_only_for_new_version toyDigest
                    (list Updater.io) (mirror 200 "") [] "1.0.12" "amd64"
                    "x86_64/package/portoshim-bin")).
    reflexivity.
Defined.

Lemma updateHashFile_known_version_is_noop_witness :
  let o := Updater.play (mirror 200 "sha256 00  porto_focal_v5.3.31_amd64.tgz")
             (porto_version.updateHashFile toyDigest "v5.3.31" "amd64"
                "x86_64/package/porto-bin") [] in
  Updater.returned o = None
  /\ existsb (fun c => Updater.is_open c || Updater.is_write c)
       (map Updater.io_of (Updater.steps o)) = false.
Proof.
  apply (proj1 (@updateHashFile_known_version_is_noop toyDigest
                  (list Updater.io)
                  (mirror 200 "sha256 00  porto_focal_v5.3.31_amd64.tgz") []
                  "v5.3.31" "amd64" "x86_64/package/porto-bin"
                  "sha256 00  porto_focal_v5.3.31_amd64.tgz" eq_refl)).
  simpl. auto.
Defined.

Lemma updateHashFile_writes_the_version_witness :
  Strings.Contains
    ("sha256 00  porto_focal_v5.3.30_amd64.tgz"
     ++ porto_version.hashLine (toyDigest "archive") "v5.3.31" "amd64")
    "v5.3.31" = true.
Proof.
  apply (@updateHashFile_writes_the_version toyDigest (list Updater.io)
           (mirror 200 "sha256 00  porto_focal_v5.3.30_amd64.tgz") []
           "v5.3.31" "amd64" "x86_64/package/porto-bin").
  left. simpl. auto 10.
Defined.

Lemma porto_updateHashFile_checks_status_witness :
  let o := Updater.play (mirror 404 "")
             (porto_version.updateHashFile toyDigest "v5.3.31" "amd64"
                "x86_64/package/porto-bin") [] in
  Updater.returned o
  = Some (Updater.Errorf "failed to download binary: %s"
            (AStr "404 Not Found"))
  /\ map Updater.io_of (Updater.steps o)
     = [Updater.http_Get (porto_version.link "v5.3.31" "amd64");
        Updater.Body_Close].
Proof.
  apply (@porto_updateHashFile_checks_status toyDigest (list Updater.io)
           (mirror 404 "") [] "v5.3.31" "amd64" "x86_64/package/porto-bin"
           {| Updater.Status := "404 Not Found"; Updater.StatusCode := 404 |}).
  - simpl. auto.
  - discriminate.
Defined.

(** A first run on a hash file without the version appends the line; a
    second run on the file so extended changes nothing. *)
Example updateHashFile_twice :
  let old := "sha256 00  porto_focal_v5.3.30_amd64.tgz" in
  let first := Updater.play (mirror 200 old)
                 (porto_version.updateHashFile toyDigest "v5.3.31" "amd64"
                    "x86_64/package/porto-bin") [] in
  let line := porto_version.hashLine (toyDigest "archive") "v5.3.31" "amd64" in
  map Updater.written (Updater.steps first)
  = [None; None; None; None; Some line; None; None]
  /\ map Updater.written
       (Updater.steps
          (Updater.play (mirror 200 (old ++ line))
             (porto_version.updateHashFile toyDigest "v5.3.31" "amd64"
                "x86_64/package/porto-bin") []))
     = [None; None; None; None; None].
Proof. split; reflexivity. Qed.
